(** * ping_exporter: the metrics bridge and the on-demand target registry

    A shallow embedding of [collector.go] (the batch and single-target
    Prometheus collectors) and of the [/metrics?target=...] handler of
    [main.go] (ephemeral targets kept alive by [time.AfterFunc] timers
    stored in a [sync.Map]).

    Conventions of the embedding:
    - a Go [map[string]*mon.Metrics] is a [gmap string Metrics]; [range]
      over it is [map_to_list] (an arbitrary but fixed order: every
      statement below is order independent);
    - a [float64] result is [float]: a rational, or the IEEE values NaN
      and +Inf that a division by zero yields; rounding is abstracted;
    - [prometheus.MustNewConstMetric] panics on a label-count mismatch;
      the panic aborts the whole [Collect], so a collector returns
      [option (list Metric)], [None] being the panic;
    - wall-clock time is a [Z] number of nanoseconds. *)

From Stdlib Require Import Ascii String ZArith QArith.
From stdpp Require Import base gmap strings list fin_maps.

Open Scope string_scope.
Open Scope list_scope.
Open Scope nat_scope.

Module Collector.

(** ** Strings: [strings.SplitN(s, " ", 3)] *)

(** Cut a string at its first space. *)
Fixpoint break_space (s : string) : option (string * string) :=
  match s with
  | EmptyString => None
  | String c r =>
      if Ascii.eqb c " "%char then Some (EmptyString, r)
      else match break_space r with
           | Some (a, b) => Some (String c a, b)
           | None => None
           end
  end.

(** [strings.SplitN(s, " ", n)] for [n >= 0]: at most [n] pieces, the
    last one holding the rest of the string. *)
Fixpoint SplitN (n : nat) (s : string) : list string :=
  match n with
  | 0 => []
  | 1 => [s]
  | S n' =>
      match break_space s with
      | None => [s]
      | Some (a, r) => a :: SplitN n' r
      end
  end.

(** [strings.Join(l, " ")]. *)
Fixpoint Join (l : list string) : string :=
  match l with
  | [] => ""
  | [a] => a
  | a :: r => a +:+ " " +:+ Join r
  end.

(** ** Data handed over by the probe engine ([mon.Metrics]) *)

Record Metrics := mkMetrics {
  PacketsSent : nat;
  PacketsLost : nat;
  Best : Q;
  Worst : Q;
  Mean : Q;
  StdDev : Q
}.

(** A [float64] value. *)
Inductive float :=
  | FNum (q : Q)
  | FNaN
  | FPosInf.

(** [float64(a) / float64(b)] for non-negative integers. *)
Definition float_div (a b : nat) : float :=
  match b with
  | O => if Nat.eqb a 0 then FNaN else FPosInf
  | S _ => FNum (inject_Z (Z.of_nat a) / inject_Z (Z.of_nat b))
  end.

(** ** Descriptors and constant metrics *)

(** The two scales an RTT value is exported in. *)
Inductive unit_scale := Millis | Seconds.

Record Desc := mkDesc {
  fqName : string;
  help : string;
  scale : option unit_scale;
  variableLabels : list string;
  constLabels : list (string * string)
}.

Record Metric := mkMetric {
  desc : Desc;
  value : float;
  labelValues : list string
}.

(** [prometheus.MustNewConstMetric(desc, GaugeValue, v, lvs...)]: [None]
    is the panic raised when the number of label values differs from the
    number of variable labels of the descriptor. *)
Definition MustNewConstMetric (d : Desc) (v : float) (lvs : list string)
    : option Metric :=
  if Nat.eqb (length lvs) (length (variableLabels d))
  then Some (mkMetric d v lvs) else None.

Definition version : string := "0.4.7".

Definition newDesc (name help : string) (vl : list string)
    (cl : list (string * string)) : Desc :=
  mkDesc ("ping_" +:+ name) help None vl cl.

(** The value of the [metrics.rttunit] flag after [main] validated it
    ([rttInvalid] aborts startup, so it is not a value of this type). *)
Inductive rttUnit := rttInMills | rttInSeconds | rttBoth.

(** Modelled from the spec: [newScaledDesc] and its [Collect] method live
    in a file of the repository that is not available. The spec says the
    RTT unit toggle exports a value in fractional seconds, in fractional
    milliseconds (legacy unit), or in both side by side: one descriptor
    per exported scale, every one with the label values given to
    [Collect], and the value converted to that scale. *)
Record scaledDesc := mkScaledDesc {
  scaledName : string;
  scaledHelp : string;
  scaledLabels : list string
}.

Definition newScaledDesc (name help : string) (vl : list string) : scaledDesc :=
  mkScaledDesc name help vl.

Definition scaledUnits (u : rttUnit) : list unit_scale :=
  match u with
  | rttInMills => [Millis]
  | rttInSeconds => [Seconds]
  | rttBoth => [Millis; Seconds]
  end.

Definition scaledDescFor (sd : scaledDesc) (s : unit_scale) : Desc :=
  mkDesc ("ping_" +:+ scaledName sd) (scaledHelp sd) (Some s)
    (scaledLabels sd) [].

(** An RTT value (in seconds) converted to the given scale. *)
Definition scaleValue (s : unit_scale) (v : Q) : float :=
  match s with
  | Seconds => FNum v
  | Millis => FNum (v * 1000)
  end.

(** Modelled from the spec: [scaledDesc.Collect(ch, v, lvs...)]. *)
Definition scaledCollect (u : rttUnit) (sd : scaledDesc) (v : Q)
    (lvs : list string) : option (list Metric) :=
  mapM (fun s => MustNewConstMetric (scaledDescFor sd s) (scaleValue s v) lvs)
    (scaledUnits u).

(** The package-level descriptors. *)
Definition labelNames : list string := ["target"; "ip"; "ip_version"].
Definition rttDesc := newScaledDesc "rtt_seconds" "Round trip time" (labelNames ++ ["type"]).
Definition bestDesc := newScaledDesc "rtt_best_seconds" "Best round trip time" labelNames.
Definition worstDesc := newScaledDesc "rtt_worst_seconds" "Worst round trip time" labelNames.
Definition meanDesc := newScaledDesc "rtt_mean_seconds" "Mean round trip time" labelNames.
Definition stddevDesc := newScaledDesc "rtt_std_deviation_seconds" "Standard deviation" labelNames.
Definition lossDesc := newDesc "loss_percent" "Packet loss in percent" labelNames [].
Definition progDesc := newDesc "up" "ping_exporter version" [] [("version", version)].

(** ** Rendering one target: the loop body shared by both collectors *)

Section Render.

(** [enableDeprecatedMetrics] and [rttMetricsScale]. *)
Variable enableDeprecatedMetrics : bool.
Variable rttMetricsScale : rttUnit.

Definition collectTarget (target : string) (metrics : Metrics)
    : option (list Metric) :=
  let l := SplitN 3 target in
  rtt ← (if Nat.ltb (PacketsLost metrics) (PacketsSent metrics) then
           dep ← (if enableDeprecatedMetrics then
                    b ← scaledCollect rttMetricsScale rttDesc (Best metrics) (l ++ ["best"]);
                    w ← scaledCollect rttMetricsScale rttDesc (Worst metrics) (l ++ ["worst"]);
                    mn ← scaledCollect rttMetricsScale rttDesc (Mean metrics) (l ++ ["mean"]);
                    sd ← scaledCollect rttMetricsScale rttDesc (StdDev metrics) (l ++ ["std_dev"]);
                    mret (b ++ w ++ mn ++ sd)
                  else mret []);
           b ← scaledCollect rttMetricsScale bestDesc (Best metrics) l;
           w ← scaledCollect rttMetricsScale worstDesc (Worst metrics) l;
           mn ← scaledCollect rttMetricsScale meanDesc (Mean metrics) l;
           sd ← scaledCollect rttMetricsScale stddevDesc (StdDev metrics) l;
           mret (dep ++ b ++ w ++ mn ++ sd)
         else mret []);
  loss ← MustNewConstMetric lossDesc
           (float_div (PacketsLost metrics) (PacketsSent metrics)) l;
  mret (rtt ++ [loss]).

(** [pingBatchCollector]: the [monitor] field is the [export] argument of
    [Collect], the snapshot [p.monitor.Export()] returns on that call. *)
Record pingBatchCollector := mkBatch { cached : gmap string Metrics }.

(** The part of [pingBatchCollector.Collect] after the cache update: the
    up gauge, then a loop over [p.metrics]. *)
Definition renderBatch (metrics : gmap string Metrics) : option (list Metric) :=
  up ← MustNewConstMetric progDesc (FNum 1) [];
  rest ← mapM (fun kv => collectTarget kv.1 kv.2) (map_to_list metrics);
  mret (up :: concat rest).

(** [pingBatchCollector.Collect]: the collector with its updated cache
    ([if m := p.monitor.Export(); len(m) > 0 { p.metrics = m }]), and the
    metrics sent on the channel. *)
Definition batchCollect (p : pingBatchCollector) (export : gmap string Metrics)
    : pingBatchCollector * option (list Metric) :=
  let p' := if decide (0 < size export) then mkBatch export else p in
  (p', renderBatch (cached p')).

(** [pingCollector.Collect] for the collector [{target: target}], on the
    snapshot [export] returned by [p.monitor.Export()]. *)
Definition singleCollect (target : string) (export : gmap string Metrics)
    : option (list Metric) :=
  match export !! target with
  | None => mret []
  | Some metrics =>
      up ← MustNewConstMetric progDesc (FNum 1) [];
      rest ← collectTarget target metrics;
      mret (up :: rest)
  end.

End Render.

(** [Describe] of [pingBatchCollector] and of [pingCollector] (the two
    methods are the same): the descriptors sent on the channel, in order. *)

(** Modelled from the spec: [scaledDesc.Describe(ch)] lives in the file of
    [newScaledDesc], which is not available. It announces the descriptor
    of every scale the RTT unit toggle exports, the ones [scaledCollect]
    uses. *)
Definition scaledDescribe (u : rttUnit) (sd : scaledDesc) : list Desc :=
  map (scaledDescFor sd) (scaledUnits u).

Definition Describe (enableDeprecatedMetrics : bool) (rttMetricsScale : rttUnit) : list Desc :=
  (if enableDeprecatedMetrics then scaledDescribe rttMetricsScale rttDesc else []) ++
  scaledDescribe rttMetricsScale bestDesc ++
  scaledDescribe rttMetricsScale worstDesc ++
  scaledDescribe rttMetricsScale meanDesc ++
  scaledDescribe rttMetricsScale stddevDesc ++
  [lossDesc; progDesc].


End Collector.
(** ** The on-demand handler and the ephemeral target registry *)

Module Server.
Import Collector.

(** A resolved [net.IPAddr]: its text form and whether [IP.To4()] is
    non-nil. *)
Record IPAddr := mkIPAddr { ip : string; is_v4 : bool }.

#[global] Instance IPAddr_eq_dec : EqDecision IPAddr.
Proof. solve_decision. Defined.

(** Modelled from the spec: [target.nameForIP] lives in a file of the
    repository that is not available. The spec: the identity used for
    metric labels combines hostname and a resolved address into the
    Probe Identity form (hostname, address, address family) serialized
    with spaces. *)
Definition nameForIP (host : string) (a : IPAddr) : string :=
  host +:+ " " +:+ ip a +:+ " " +:+ (if is_v4 a then "4" else "6").

(** A timer created by [time.AfterFunc]: the [tg] and the [t] its callback
    captured, its deadline, and whether it is still pending (neither
    stopped nor fired). *)
Record Timer := mkTimer {
  t_host : string;
  t_deadline : Z;
  t_addresses : list IPAddr;
  t_live : bool
}.

Record State := mkState {
  now : Z;                          (* nanoseconds *)
  staticTargets : list string;      (* cfg.Targets *)
  targetsMap : gmap string nat;     (* the sync.Map: host to timer id *)
  timers : list Timer;              (* every timer created, by id *)
  engine : gset string;             (* identities added to the monitor *)
  batch : pingBatchCollector        (* the registered batch collector *)
}.

Definition initState (static : list string) : State :=
  mkState 0 static ∅ [] ∅ (mkBatch ∅).

Definition set_engine (e : gset string) (st : State) : State :=
  mkState (now st) (staticTargets st) (targetsMap st) (timers st) e (batch st).
Definition set_batch (b : pingBatchCollector) (st : State) : State :=
  mkState (now st) (staticTargets st) (targetsMap st) (timers st) (engine st) b.
Definition set_timers (ts : list Timer) (st : State) : State :=
  mkState (now st) (staticTargets st) (targetsMap st) ts (engine st) (batch st).
Definition set_targetsMap (m : gmap string nat) (st : State) : State :=
  mkState (now st) (staticTargets st) m (timers st) (engine st) (batch st).
Definition set_now (t : Z) (st : State) : State :=
  mkState t (staticTargets st) (targetsMap st) (timers st) (engine st) (batch st).

(** What [resolver.LookupIPAddr] answers. *)
Inductive LookupResult :=
  | LookupErr (msg : string)
  | LookupOk (addrs : list IPAddr).

(** One HTTP request to the metrics path, with the answers of the outside
    world it meets: the resolver, the monitor's [AddTargetDelayed]
    ([Some err] when it fails) and the monitor's [Export()]. *)
Record Request := mkRequest {
  query_target : string;
  lookup : LookupResult;
  addResult : option string;
  snapshot : gmap string Metrics
}.

Inductive Response :=
  | RText (code : Z) (body : string)
  | RMetrics (code : Z) (out : option (list Metric)).

Definition StatusOK : Z := 200.
Definition StatusBadRequest : Z := 400.
Definition StatusInternalServerError : Z := 500.

(** [http.Error(w, msg, code)] writes [msg] and a newline. *)
Definition httpError (msg : string) (code : Z) : Response :=
  RText code (msg +:+ "
").

(** Modelled from the spec: [target.addIfNew(addr, monitor)]. The spec
    says the first resolved address is registered with the probe engine
    (registering an already registered identity is a no-op) and that the
    expiry later deregisters the target's addresses, so on success the
    address is recorded in [t.addresses]; [res] is the monitor's answer. *)
Definition addIfNew (host : string) (addresses : list IPAddr) (a : IPAddr)
    (res : option string) (st : State) : State * list IPAddr * option string :=
  if decide (a ∈ addresses) then (st, addresses, None) else
  match res with
  | Some e => (st, addresses, Some e)
  | None => (set_engine ({[nameForIP host a]} ∪ engine st) st, addresses ++ [a], None)
  end.

(** Modelled from the spec: [target.cleanUp(addrs, monitor)] as the expiry
    callback uses it: deregister the given addresses from the engine. *)
Definition cleanUp (host : string) (addrs : list IPAddr) (st : State) : State :=
  set_engine (engine st ∖ list_to_set (map (nameForIP host) addrs)) st.

(** [timer.Stop()]: a pending timer no longer fires; a stopped or fired
    one is left as it is. *)
Definition stopTimer (id : nat) (st : State) : State :=
  match timers st !! id with
  | Some t => set_timers (<[id := mkTimer (t_host t) (t_deadline t) (t_addresses t) false]> (timers st)) st
  | None => st
  end.

(** A timer fires once the clock has reached its deadline (the runtime
    runs a timer whose [when <= now]); its callback runs
    [targetsMap.Delete(tg)] and [t.cleanUp(t.addresses, monitor)]. *)
Definition fireTimer (id : nat) (st : State) : State :=
  match timers st !! id with
  | Some t =>
      if t_live t && Z.leb (t_deadline t) (now st) then
        cleanUp (t_host t) (t_addresses t)
          (set_targetsMap (delete (t_host t) (targetsMap st))
             (set_timers (<[id := mkTimer (t_host t) (t_deadline t) (t_addresses t) false]> (timers st)) st))
      else st
  | None => st
  end.

Definition fireDue (st : State) : State :=
  foldl (fun s id => fireTimer id s) st (seq 0 (length (timers st))).

(** The clock advances by [dt] nanoseconds and the due timers fire. *)
Definition tick (dt : N) (st : State) : State :=
  fireDue (set_now (now st + Z.of_N dt) st).

(** Two's-complement wrap-around of an [int64] result. *)
Definition wrap64 (z : Z) : Z := (z + 2 ^ 63) mod 2 ^ 64 - 2 ^ 63.

Definition maxInt64 : Z := 2 ^ 63 - 1.

(** The runtime's [when(d)] for [time.AfterFunc(d, f)], read at monotonic
    time [t0]: a duration [d <= 0] is due at once; a sum that overflows is
    clamped to [math.MaxInt64]. *)
Definition afterFuncWhen (t0 d : Z) : Z :=
  if Z.leb d 0 then t0
  else let t := wrap64 (t0 + d) in if Z.ltb t 0 then maxInt64 else t.

Section Handler.

Variable enableDeprecatedMetrics : bool.
Variable rttMetricsScale : rttUnit.
(** [*targetsTimeout], in seconds. *)
Variable targetsTimeout : Z.

(** [time.Duration] of [*targetsTimeout] times [time.Second]: an [int64] product, in
    nanoseconds, that wraps around. *)
Definition timeoutDuration : Z := wrap64 (targetsTimeout * 1000000000).

(** [targetsMap.Store(tg, time.AfterFunc(timeout, ...))] for the callback
    capturing [tg] and a target whose [addresses] are [addrs]. *)
Definition storeTimer (tg : string) (addrs : list IPAddr) (st : State) : State :=
  let id := length (timers st) in
  set_targetsMap (<[tg := id]> (targetsMap st))
    (set_timers (timers st ++ [mkTimer tg (afterFuncWhen (now st) timeoutDuration) addrs true]) st).

(** Serving the single-target registry: [pingCollector.Collect]. *)
Definition serveSingle (tg : string) (a : IPAddr) (rq : Request) : Response :=
  RMetrics StatusOK
    (singleCollect enableDeprecatedMetrics rttMetricsScale (nameForIP tg a) (snapshot rq)).

(** The handler of [*metricsPath], one request served on its own. The
    target [t] it builds has no addresses ([addresses] left nil). *)
Definition handle (st : State) (rq : Request) : State * Response :=
  let tg := query_target rq in
  if decide (tg = "") then
    let '(b', out) := batchCollect enableDeprecatedMetrics rttMetricsScale (batch st) (snapshot rq) in
    (set_batch b' st, RMetrics StatusOK out)
  else
  match lookup rq with
  | LookupErr msg => (st, httpError msg StatusBadRequest)
  | LookupOk [] => (st, httpError "cannot resolve target" StatusBadRequest)
  | LookupOk (a :: _) =>
      match targetsMap st !! tg with
      | None =>
          match addIfNew tg [] a (addResult rq) st with
          | (_, _, Some e) => (st, httpError e StatusInternalServerError)
          | (st1, addrs, None) => (storeTimer tg addrs st1, serveSingle tg a rq)
          end
      | Some id => (storeTimer tg [] (stopTimer id st), serveSingle tg a rq)
      end
  end.

(** Requests handled one after the other, and the passing of time. *)
Inductive Event :=
  | Req (rq : Request)
  | Tick (dt : N).

Fixpoint run (st : State) (evs : list Event) : State * list Response :=
  match evs with
  | [] => (st, [])
  | Req rq :: evs' =>
      let '(st1, r) := handle st rq in
      let '(st2, rs) := run st1 evs' in (st2, r :: rs)
  | Tick dt :: evs' => run (tick dt st) evs'
  end.

(** ** Concurrent requests

    net/http serves every request in its own goroutine. The handler's
    accesses to shared state are [targetsMap.Load], [t.addIfNew] (the
    monitor), [Stop], and [time.AfterFunc] followed by [targetsMap.Store];
    each one is atomic, and goroutines interleave between them. The batch
    handler runs under the collectors' mutex, so it is one step. *)
Inductive Phase :=
  | PBatch
  | PLoad (a : IPAddr)
  | PAdd (a : IPAddr)
  | PStop (a : IPAddr) (id : nat)
  | PStore (a : IPAddr) (addrs : list IPAddr)
  | PServe (a : IPAddr)
  | PDone (r : Response).

Record Thread := mkThread { th_req : Request; th_phase : Phase }.

(** A new goroutine for [rq]; resolving touches no shared state. *)
Definition spawn (rq : Request) : Thread :=
  if decide (query_target rq = "") then mkThread rq PBatch else
  match lookup rq with
  | LookupErr msg => mkThread rq (PDone (httpError msg StatusBadRequest))
  | LookupOk [] => mkThread rq (PDone (httpError "cannot resolve target" StatusBadRequest))
  | LookupOk (a :: _) => mkThread rq (PLoad a)
  end.

(** One atomic step of a goroutine. *)
Definition threadStep (st : State) (th : Thread) : State * Thread :=
  let rq := th_req th in
  let tg := query_target rq in
  match th_phase th with
  | PBatch =>
      let '(b', out) := batchCollect enableDeprecatedMetrics rttMetricsScale (batch st) (snapshot rq) in
      (set_batch b' st, mkThread rq (PDone (RMetrics StatusOK out)))
  | PLoad a =>
      match targetsMap st !! tg with
      | None => (st, mkThread rq (PAdd a))
      | Some id => (st, mkThread rq (PStop a id))
      end
  | PAdd a =>
      match addIfNew tg [] a (addResult rq) st with
      | (_, _, Some e) => (st, mkThread rq (PDone (httpError e StatusInternalServerError)))
      | (st1, addrs, None) => (st1, mkThread rq (PStore a addrs))
      end
  | PStop a id => (stopTimer id st, mkThread rq (PStore a []))
  | PStore a addrs => (storeTimer tg addrs st, mkThread rq (PServe a))
  | PServe a => (st, mkThread rq (PDone (serveSingle tg a rq)))
  | PDone _ => (st, th)
  end.

(** A scheduler's choices: a request arrives, goroutine [i] takes a step,
    or the clock advances. *)
Inductive CEvent :=
  | Spawn (rq : Request)
  | Step (i : nat)
  | CTick (dt : N).

Definition cstep (c : State * list Thread) (ev : CEvent) : State * list Thread :=
  let '(st, ths) := c in
  match ev with
  | Spawn rq => (st, ths ++ [spawn rq])
  | Step i =>
      match ths !! i with
      | Some th => let '(st', th') := threadStep st th in (st', <[i := th']> ths)
      | None => (st, ths)
      end
  | CTick dt => (tick dt st, ths)
  end.

Definition crun (c : State * list Thread) (evs : list CEvent) : State * list Thread :=
  foldl cstep c evs.

End Handler.

End Server.

(** ** Startup: [main], [loadConfig], [addFlagToConfig], [setupResolver] *)

Module Startup.
Import Collector.

(** Modelled from the spec: [config.Config] lives in a package of the
    repository that is not available. Its fields are the ones [main.go]
    reads: the target list, the ping history size ([int]), interval and
    timeout (durations, in nanoseconds), payload size ([uint16]), the DNS
    refresh interval and the nameserver override. A field at its zero
    value is unset. *)
Record Config := mkConfig {
  Targets : list string;
  History : Z;
  Interval : Z;
  Timeout : Z;
  Size : N;
  Refresh : Z;
  Nameserver : string
}.

(** [config.Config{}]. *)
Definition emptyConfig : Config := mkConfig [] 0 0 0 0 0 "".

(** The values of the command-line flags after [kingpin.Parse()]. *)
Record Flags := mkFlags {
  showVersion : bool;
  metricsPath : string;
  configFile : string;
  pingInterval : Z;
  pingTimeout : Z;
  pingSize : N;
  historySize : Z;
  dnsRefresh : Z;
  dnsNameServer : string;
  targets : list string;
  deprecatedMetrics : string;
  rttMode : string
}.

(** [addFlagToConfig(cfg)]: a flag value fills a field the config leaves
    at its zero value. *)
Definition addFlagToConfig (fl : Flags) (cfg : Config) : Config :=
  mkConfig
    (if decide (length (Targets cfg) = 0) then targets fl else Targets cfg)
    (if decide (History cfg = 0%Z) then historySize fl else History cfg)
    (if decide (Interval cfg = 0%Z) then pingInterval fl else Interval cfg)
    (if decide (Timeout cfg = 0%Z) then pingTimeout fl else Timeout cfg)
    (if decide (Size cfg = 0%N) then pingSize fl else Size cfg)
    (if decide (Refresh cfg = 0%Z) then dnsRefresh fl else Refresh cfg)
    (if decide (Nameserver cfg = "") then dnsNameServer fl else Nameserver cfg).

(** What reading [*configFile] gives: [os.Open] fails, [config.FromYAML]
    fails, or the parsed config. *)
Inductive ConfigFile :=
  | OpenError (msg : string)
  | ParseError (msg : string)
  | Parsed (cfg : Config).

(** [loadConfig()]: [inl] is the error returned. *)
Definition loadConfig (fl : Flags) (file : ConfigFile) : string + Config :=
  if decide (configFile fl = "") then inr (addFlagToConfig fl emptyConfig) else
  match file with
  | OpenError e => inl ("cannot load config file: " +:+ e)
  | ParseError e => inl e
  | Parsed cfg => inr (addFlagToConfig fl cfg)
  end.

(** [strings.HasSuffix(s, suffix)]. *)
Definition HasSuffix (s suffix : string) : bool :=
  (String.length suffix <=? String.length s) &&
  String.eqb (substring (String.length s - String.length suffix) (String.length suffix) s) suffix.

(** The resolver [setupResolver] returns: [net.DefaultResolver], or a Go
    resolver whose dialer always dials [network] at [address]. *)
Inductive Resolver :=
  | DefaultResolver
  | DialResolver (network address : string).

(** [setupResolver(cfg)], with the config it leaves behind (it appends
    [":53"] to [cfg.DNS.Nameserver] in place). *)
Definition setupResolver (cfg : Config) : Resolver * Config :=
  if decide (Nameserver cfg = "") then (DefaultResolver, cfg) else
  let ns := if HasSuffix (Nameserver cfg) ":53" then Nameserver cfg
            else Nameserver cfg +:+ ":53" in
  let cfg' := mkConfig (Targets cfg) (History cfg) (Interval cfg) (Timeout cfg)
                (Size cfg) (Refresh cfg) ns in
  (DialResolver "udp" cfg'.(Nameserver), cfg').

(** The [*metricsPath] correction in [main]. *)
Definition normalizeMetricsPath (mpath : string) : string :=
  match mpath with
  | EmptyString => "/metrics"
  | String c _ => if Ascii.eqb c "/"%char then mpath else "/" +:+ mpath
  end.

(** Modelled from the spec: [rttUnitFromString] lives in a file of the
    repository that is not available; [None] is [rttInvalid]. The valid
    choices are the ones the [metrics.rttunit] flag lists: [ms] for
    milliseconds, [s] for seconds, [both]. *)
Definition rttUnitFromString (s : string) : option rttUnit :=
  if decide (s = "ms") then Some rttInMills
  else if decide (s = "s") then Some rttInSeconds
  else if decide (s = "both") then Some rttBoth
  else None.

(** What [main] has set up when it reaches [startServer]. *)
Record Settings := mkSettings {
  s_enableDeprecatedMetrics : bool;
  s_rttMetricsScale : rttUnit;
  s_metricsPath : string;
  s_cfg : Config;
  s_resolver : Resolver
}.

(** How [main] ends: [os.Exit(code)], [kingpin.FatalUsage(msg)], or
    serving. *)
Inductive Outcome :=
  | Exit (code : Z)
  | FatalUsage (msg : string)
  | Serve (s : Settings).

(** [main] up to [startServer]. The answers of the outside world are
    inputs: whether [log.Logger.SetLevel] accepts the level, what the
    config file holds, and whether [ping.New] succeeds. The monitor and
    the static targets [startMonitor] registers are left out: [main]
    only checks its error. *)
Definition main (fl : Flags) (levelOk : bool) (file : ConfigFile) (pingerOk : bool)
    : Outcome :=
  if showVersion fl then Exit 0 else
  if negb levelOk then Exit 1 else
  let dep := if decide (deprecatedMetrics fl = "enable") then Some true
             else if decide (deprecatedMetrics fl = "disable") then Some false
             else None in
  match dep with
  | None => FatalUsage "metrics.deprecated must be `enable` or `disable`"
  | Some dep =>
  match rttUnitFromString (rttMode fl) with
  | None => FatalUsage "metrics.rttunit must be `ms` for millis, or `s` for seconds, or `both`"
  | Some sc =>
  let mpath := normalizeMetricsPath (metricsPath fl) in
  match loadConfig fl file with
  | inl e => FatalUsage ("could not load config.path: " +:+ e)
  | inr cfg =>
  if decide (History cfg < 1)%Z then FatalUsage "ping.history-size must be greater than 0" else
  if decide (65500 < Size cfg)%N then FatalUsage "ping.size must be between 0 and 65500" else
  let '(res, cfg') := setupResolver cfg in
  if negb pingerOk then Exit 2 else
  Serve (mkSettings dep sc mpath cfg' res)
  end end end.

End Startup.


Import Collector Server Startup.

(** ** Vocabulary of the statements *)

(** Pending expiry timers of a hostname. *)
Definition liveTimers (h : string) (st : State) : nat :=
  length (filter (fun t => t_host t = h /\ t_live t = true) (timers st)).

(** Every pending timer is the one stored under its hostname, and every
    stored timer is pending. *)
Definition RegistryInv (st : State) : Prop :=
  (∀ (id : nat) (t : Timer), timers st !! id = Some t → t_live t = true →
     targetsMap st !! t_host t = Some id) ∧
  (∀ (h : string) (id : nat), targetsMap st !! h = Some id →
     ∃ t, timers st !! id = Some t ∧ t_live t = true ∧ t_host t = h).

(** ** Concrete requests *)

Definition addr_example : IPAddr := mkIPAddr "93.184.216.34" true.
Definition addr_h : IPAddr := mkIPAddr "1.2.3.4" true.

(** An on-demand request that resolves to one address and is accepted by
    the engine, the engine exporting no statistics yet. *)
Definition okRequest (host : string) (a : IPAddr) : Request :=
  mkRequest host (LookupOk [a]) None ∅.

(** The four RTT statistics, their descriptor, their [type] label and
    their value. *)
Inductive rttStat := StatBest | StatWorst | StatMean | StatStdDev.

Definition allStats : list rttStat := [StatBest; StatWorst; StatMean; StatStdDev].

Definition statDesc (s : rttStat) : scaledDesc :=
  match s with
  | StatBest => bestDesc | StatWorst => worstDesc
  | StatMean => meanDesc | StatStdDev => stddevDesc
  end.

Definition statType (s : rttStat) : string :=
  match s with
  | StatBest => "best" | StatWorst => "worst"
  | StatMean => "mean" | StatStdDev => "std_dev"
  end.

Definition statValue (s : rttStat) (m : Metrics) : Q :=
  match s with
  | StatBest => Best m | StatWorst => Worst m
  | StatMean => Mean m | StatStdDev => StdDev m
  end.

(** A descriptor of an RTT metric, type-labelled or not. *)
Definition isRttDesc (d : Desc) : Prop :=
  ∃ sd s, sd ∈ [rttDesc; bestDesc; worstDesc; meanDesc; stddevDesc] ∧ d = scaledDescFor sd s.

(** The [target], [ip] and [ip_version] values of a sample. *)
Definition sampleIdentity (x : Metric) : list string := take 3 (labelValues x).

(** What [scaledCollect] sends when it does not panic. *)
Definition scaledMetrics (sc : rttUnit) (sd : scaledDesc) (v : Q) (lvs : list string)
    : list Metric :=
  map (fun s => mkMetric (scaledDescFor sd s) (scaleValue s v) lvs) (scaledUnits sc).

(** What [collectTarget] sends for one identity when it does not panic. *)
Definition targetMetrics (dep : bool) (sc : rttUnit) (target : string) (m : Metrics)
    : list Metric :=
  let l := SplitN 3 target in
  (if Nat.ltb (PacketsLost m) (PacketsSent m) then
     (if dep then concat (map (fun st => scaledMetrics sc rttDesc (statValue st m) (l ++ [statType st])) allStats)
      else [])
     ++ concat (map (fun st => scaledMetrics sc (statDesc st) (statValue st m) l) allStats)
   else [])
  ++ [mkMetric lossDesc (float_div (PacketsLost m) (PacketsSent m)) l].

Definition upMetric : Metric := mkMetric progDesc (FNum 1) [].

(** The snapshot the batch collector holds after a sequence of pulls:
    the last non-empty one, or the initial one when all were empty. *)
Definition lastNonEmpty (init : gmap string Metrics) (pulls : list (gmap string Metrics))
    : gmap string Metrics :=
  foldl (fun acc e => if decide (0 < size e) then e else acc) init pulls.

(** The batch collector after [Collect] was called once per pull. *)
Definition collectMany (dep : bool) (sc : rttUnit) (p : pingBatchCollector)
    (pulls : list (gmap string Metrics)) : pingBatchCollector :=
  foldl (fun p e => (batchCollect dep sc p e).1) p pulls.

(** The four RTT statistics of identity [k] are sent when [m] has more
    packets sent than lost; no RTT sample of [k] is sent otherwise. *)
Definition RttPolicy (sc : rttUnit) (out : list Metric) (k : string) (m : Metrics) : Prop :=
  (PacketsLost m < PacketsSent m → ∀ (st : rttStat) (s : unit_scale), s ∈ scaledUnits sc →
     ∃ x, x ∈ out ∧ desc x = scaledDescFor (statDesc st) s ∧ labelValues x = SplitN 3 k) ∧
  (PacketsSent m ≤ PacketsLost m → ∀ x, x ∈ out → isRttDesc (desc x) →
     sampleIdentity x ≠ SplitN 3 k).

(** The loss ratio of identity [k] is sent, with value
    [float64(lost) / float64(sent)]; every loss sample of [k] lies in
    [0, 1] when [0 < sent] and [lost <= sent]. *)
Definition LossPolicy (out : list Metric) (k : string) (m : Metrics) : Prop :=
  (∃ x, x ∈ out ∧ desc x = lossDesc ∧ labelValues x = SplitN 3 k ∧
        value x = float_div (PacketsLost m) (PacketsSent m)) ∧
  (0 < PacketsSent m → PacketsLost m ≤ PacketsSent m →
     ∀ x, x ∈ out → desc x = lossDesc → labelValues x = SplitN 3 k →
       ∃ q, value x = FNum q ∧ (0 <= q)%Q ∧ (q <= 1)%Q).

(** Each type-labelled RTT sample of [k] has a separately named twin, and
    every such pair carries the same value. *)
Definition TypeLabelledAgree (sc : rttUnit) (out : list Metric) (k : string) : Prop :=
  ∀ (st : rttStat) (s : unit_scale), s ∈ scaledUnits sc →
    (∃ x, x ∈ out ∧ desc x = scaledDescFor rttDesc s ∧ labelValues x = SplitN 3 k ++ [statType st]) ∧
    (∃ y, y ∈ out ∧ desc y = scaledDescFor (statDesc st) s ∧ labelValues y = SplitN 3 k) ∧
    (∀ x y, x ∈ out → y ∈ out →
       desc x = scaledDescFor rttDesc s → labelValues x = SplitN 3 k ++ [statType st] →
       desc y = scaledDescFor (statDesc st) s → labelValues y = SplitN 3 k →
       value x = value y).

Definition NoTypeLabelled (out : list Metric) : Prop :=
  ∀ x (s : unit_scale), x ∈ out → desc x ≠ scaledDescFor rttDesc s.

(** A sample of identity [k] has one value per variable label: the labels
    [target], [ip], [ip_version] carry the three parts of [k], and the
    type-labelled RTT samples add [type]. *)
Definition LabelsFit (x : Metric) (k : string) : Prop :=
  length (labelValues x) = length (variableLabels (desc x)) ∧
  ((variableLabels (desc x) = labelNames ∧ labelValues x = SplitN 3 k) ∨
   (∃ ty, variableLabels (desc x) = labelNames ++ ["type"] ∧ labelValues x = SplitN 3 k ++ [ty])).

(** The up gauge: no variable label, the constant label [version]. *)
Definition IsUpGauge (x : Metric) : Prop :=
  x = upMetric ∧ variableLabels (desc x) = [] ∧ constLabels (desc x) = [("version", version)].

(** Statistics of ten packets sent, none lost, and a snapshot holding
    them for one identity. *)
Definition metrics_h : Metrics := mkMetrics 10 0 (1#100) (3#100) (2#100) (1#1000).

Definition snapshot_h : gmap string Metrics := {[ "h 1.2.3.4 4" := metrics_h ]}.

(** The samples of identity [k] in [out] are exactly the ones its
    statistics [m] give, and its identity has three parts. *)
Definition RendersTarget (dep : bool) (sc : rttUnit) (out : list Metric)
    (k : string) (m : Metrics) : Prop :=
  length (SplitN 3 k) = 3 ∧
  (∀ x, x ∈ targetMetrics dep sc k m → x ∈ out) ∧
  (∀ x, x ∈ out → sampleIdentity x = SplitN 3 k → x ∈ targetMetrics dep sc k m).


(** The number of samples sent under the metric name [n]. *)
Definition countName (n : string) (out : list Metric) : nat :=
  length (filter (fun x => fqName (desc x) = n) out).

(** The flag values when none is given on the command line: the
    [Default] of each [kingpin] flag ([5s], [4s], [1m] in nanoseconds). *)
Definition defaultFlags : Flags :=
  mkFlags false "/metrics" "" 5000000000 4000000000 56 10 60000000000 "" []
    "enable" "ms".

(** ** The ephemeral registry, requests handled one at a time *)


Lemma RegistryInv_fields (st st' : State) :
  timers st' = timers st → targetsMap st' = targetsMap st →
  RegistryInv st → RegistryInv st'.
Proof. unfold RegistryInv. intros -> ->. done. Qed.

Lemma RegistryInv_init (static : list string) : RegistryInv (initState static).
Proof.
  split; simpl.
  - intros id t H. by rewrite lookup_nil in H.
  - intros h id H. by rewrite lookup_empty in H.
Qed.

Lemma addIfNew_fields (host : string) (addrs : list IPAddr) (a : IPAddr)
    (res : option string) (st st1 : State) (addrs1 : list IPAddr) (r : option string) :
  addIfNew host addrs a res st = (st1, addrs1, r) →
  timers st1 = timers st ∧ targetsMap st1 = targetsMap st.
Proof.
  unfold addIfNew. destruct (decide _); [by intros [= <- _ _] |].
  destruct res; by intros [= <- _ _].
Qed.

Lemma lookup_snoc {A} (l : list A) (x : A) (i : nat) :
  (l ++ [x]) !! i = if decide (i < length l) then l !! i
                    else if decide (i = length l) then Some x else None.
Proof.
  rewrite lookup_app. destruct (l !! i) eqn:E.
  - apply lookup_lt_Some in E. by rewrite decide_True.
  - apply lookup_ge_None in E. rewrite decide_False by lia.
    destruct (decide (i = length l)) as [->|Hne].
    + by rewrite Nat.sub_diag.
    + apply lookup_ge_None. simpl. lia.
Qed.

Lemma storeTimer_fresh_inv (T : Z) (tg : string) (addrs : list IPAddr) (st : State) :
  RegistryInv st → targetsMap st !! tg = None →
  RegistryInv (storeTimer T tg addrs st).
Proof.
  intros [H1 H2] Hnone. unfold storeTimer. split; simpl.
  - intros i t Hi Hl. rewrite lookup_snoc in Hi.
    destruct (decide (i < length (timers st))).
    + pose proof (H1 i t Hi Hl) as Hm.
      rewrite lookup_insert_ne; [done |]. intros Heq. congruence.
    + destruct (decide (i = length (timers st))) as [->|]; [| done].
      injection Hi as <-. simpl. by rewrite lookup_insert_eq.
  - intros h id Hh. destruct (decide (tg = h)) as [<-|Hne].
    + rewrite lookup_insert_eq in Hh. injection Hh as <-.
      eexists. rewrite lookup_snoc, decide_False, decide_True by lia. done.
    + rewrite lookup_insert_ne in Hh by done.
      destruct (H2 h id Hh) as (t & Ht & Hl & Hho).
      exists t. rewrite lookup_snoc, decide_True; [done |].
      by apply lookup_lt_Some in Ht.
Qed.

Lemma storeTimer_refresh_inv (T : Z) (tg : string) (addrs : list IPAddr)
    (id : nat) (st : State) :
  RegistryInv st → targetsMap st !! tg = Some id →
  RegistryInv (storeTimer T tg addrs (stopTimer id st)).
Proof.
  intros [H1 H2] Hid.
  destruct (H2 tg id Hid) as (t0 & Ht0 & Hl0 & Hh0).
  unfold stopTimer. rewrite Ht0. unfold storeTimer. split; simpl.
  - intros i t Hi Hl. rewrite lookup_snoc, length_insert in Hi.
    destruct (decide (i < length (timers st))).
    + destruct (decide (i = id)) as [->|Hne].
      * rewrite list_lookup_insert_eq in Hi by done.
        injection Hi as <-. discriminate.
      * rewrite list_lookup_insert_ne in Hi by done.
        pose proof (H1 i t Hi Hl) as Hm.
        rewrite lookup_insert_ne; [done |]. intros Heq. congruence.
    + destruct (decide (i = length (timers st))) as [->|]; [| done].
      injection Hi as <-. simpl. by rewrite length_insert, lookup_insert_eq.
  - intros h j Hh. rewrite length_insert in Hh.
    destruct (decide (tg = h)) as [<-|Hne].
    + rewrite lookup_insert_eq in Hh. injection Hh as <-.
      eexists. rewrite lookup_snoc, length_insert, decide_False, decide_True by lia. done.
    + rewrite lookup_insert_ne in Hh by done.
      destruct (H2 h j Hh) as (t & Ht & Hl & Hho).
      assert (j ≠ id) by (intros ->; congruence).
      exists t. rewrite lookup_snoc, length_insert, decide_True.
      * by rewrite list_lookup_insert_ne.
      * by apply lookup_lt_Some in Ht.
Qed.

Lemma fireTimer_inv (id : nat) (st : State) :
  RegistryInv st → RegistryInv (fireTimer id st).
Proof.
  intros [H1 H2]. unfold fireTimer.
  destruct (timers st !! id) as [t0|] eqn:Ht0; [| by split].
  destruct (t_live t0 && (t_deadline t0 <=? now st)%Z) eqn:Hc; [| by split].
  apply andb_true_iff in Hc as [Hl0 _].
  pose proof (H1 id t0 Ht0 Hl0) as Hm0.
  unfold cleanUp. split; simpl.
  - intros i t Hi Hl. destruct (decide (i = id)) as [->|Hne].
    + rewrite list_lookup_insert_eq in Hi by (by apply lookup_lt_Some in Ht0).
      injection Hi as <-. discriminate.
    + rewrite list_lookup_insert_ne in Hi by done.
      pose proof (H1 i t Hi Hl) as Hm.
      rewrite lookup_delete_ne; [done |]. intros Heq. rewrite Heq in Hm0. congruence.
  - intros h j Hh. destruct (decide (t_host t0 = h)) as [<-|Hne].
    + by rewrite lookup_delete_eq in Hh.
    + rewrite lookup_delete_ne in Hh by done.
      destruct (H2 h j Hh) as (t & Ht & Hl & Hho).
      assert (j ≠ id) by (intros ->; congruence).
      exists t. by rewrite list_lookup_insert_ne.
Qed.

Lemma fireDue_inv (st : State) : RegistryInv st → RegistryInv (fireDue st).
Proof.
  unfold fireDue. generalize (seq 0 (length (timers st))) as ids.
  intros ids. revert st. induction ids as [|id ids IH]; intros st H; simpl; [done |].
  apply IH, fireTimer_inv, H.
Qed.

Lemma tick_inv (dt : N) (st : State) : RegistryInv st → RegistryInv (tick dt st).
Proof.
  intros H. apply fireDue_inv. by eapply RegistryInv_fields; [..| exact H].
Qed.

Lemma handle_inv (dep : bool) (sc : rttUnit) (T : Z) (st : State) (rq : Request) :
  RegistryInv st → RegistryInv (handle dep sc T st rq).1.
Proof.
  intros H. unfold handle.
  destruct (decide (query_target rq = "")).
  { destruct (batchCollect _ _ _ _). simpl. by eapply RegistryInv_fields; [..| exact H]. }
  destruct (lookup rq) as [msg|[|a rest]]; [done | done |].
  destruct (targetsMap st !! query_target rq) as [id|] eqn:Hm.
  - by apply storeTimer_refresh_inv.
  - destruct (addIfNew _ _ _ _ _) as [[st1 addrs] [e|]] eqn:Ha; [done |].
    apply addIfNew_fields in Ha as [Ht Hmap].
    apply storeTimer_fresh_inv.
    + by eapply RegistryInv_fields; [..| exact H].
    + by rewrite Hmap.
Qed.

Lemma run_inv (dep : bool) (sc : rttUnit) (T : Z) (evs : list Event) (st : State) :
  RegistryInv st → RegistryInv (run dep sc T st evs).1.
Proof.
  revert st. induction evs as [|[rq|dt] evs IH]; intros st H; simpl; [done | |].
  - destruct (handle dep sc T st rq) as [st1 r] eqn:Hh.
    destruct (run dep sc T st1 evs) as [st2 rs] eqn:Hr. simpl.
    replace st2 with (run dep sc T st1 evs).1 by (by rewrite Hr).
    apply IH. replace st1 with (handle dep sc T st rq).1 by (by rewrite Hh).
    by apply handle_inv.
  - by apply IH, tick_inv.
Qed.

Lemma RegistryInv_one_live (st : State) (h : string) :
  RegistryInv st → liveTimers h st ≤ 1.
Proof.
  intros [H1 _]. unfold liveTimers.
  assert (Huniq : ∀ (i j : nat) (ti tj : Timer), timers st !! i = Some ti → timers st !! j = Some tj →
            t_host ti = h ∧ t_live ti = true → t_host tj = h ∧ t_live tj = true → i = j).
  { intros i j ti tj Hi Hj [Hhi Hli] [Hhj Hlj].
    pose proof (H1 i ti Hi Hli). pose proof (H1 j tj Hj Hlj). congruence. }
  clear H1. induction (timers st) as [|t ts IH]; simpl; [lia |].
  assert (IH' : length (filter (λ t, t_host t = h ∧ t_live t = true) ts) ≤ 1).
  { apply IH. intros i j ti tj Hi Hj Pi Pj.
    enough (S i = S j) by lia. by apply (Huniq (S i) (S j) ti tj). }
  rewrite filter_cons. case_decide as Hp; simpl; [| done].
  destruct (filter _ ts) as [|y ys] eqn:Ef; simpl; [lia | exfalso].
  assert (Hy : y ∈ filter (λ t, t_host t = h ∧ t_live t = true) ts) by (rewrite Ef; left).
  apply list_elem_of_filter in Hy as [Py Hy].
  apply list_elem_of_lookup in Hy as [k Hk].
  by pose proof (Huniq 0 (S k) t y eq_refl Hk Hp Py).
Qed.

(** The success path of an on-demand request. *)
Lemma handle_ok (dep : bool) (sc : rttUnit) (T : Z) (st : State) (rq : Request)
    (a : IPAddr) (rest : list IPAddr) :
  query_target rq ≠ "" → lookup rq = LookupOk (a :: rest) →
  is_Some (targetsMap st !! query_target rq) ∨ addResult rq = None →
  (handle dep sc T st rq).2 = serveSingle dep sc (query_target rq) a rq ∧
  targetsMap (handle dep sc T st rq).1
    = <[query_target rq := length (timers st)]> (targetsMap st) ∧
  (∃ addrs, timers (handle dep sc T st rq).1 !! length (timers st)
              = Some (mkTimer (query_target rq) (afterFuncWhen (now st) (timeoutDuration T)) addrs true)) ∧
  staticTargets (handle dep sc T st rq).1 = staticTargets st.
Proof.
  intros Hne Hl Hc. unfold handle. rewrite decide_False by done. rewrite Hl.
  destruct (targetsMap st !! query_target rq) as [id|] eqn:Hm.
  - unfold stopTimer. destruct (timers st !! id) as [t|]; unfold storeTimer; simpl.
    + rewrite !length_insert. split_and!; try done.
      exists []. rewrite lookup_snoc, length_insert, decide_False, decide_True by lia. done.
    + split_and!; try done.
      exists []. rewrite lookup_snoc, decide_False, decide_True by lia. done.
  - destruct Hc as [[? Hc]|Hc]; [done |].
    unfold addIfNew. rewrite decide_False by apply not_elem_of_nil. rewrite Hc.
    unfold storeTimer; simpl. split_and!; try done.
    exists [a]. rewrite lookup_snoc, decide_False, decide_True by lia. done.
Qed.

(** C4 (amended): the on-demand handler never consults the static target
    list. A request whose hostname resolves and that is not refused by the
    engine stores an Ephemeral Entry (a fresh timer) under that hostname,
    whether or not the hostname is statically configured. *)
Theorem handler_registers_any_hostname (dep : bool) (sc : rttUnit) (T : Z)
    (st : State) (rq : Request) (a : IPAddr) (rest : list IPAddr) :
  query_target rq ≠ "" → lookup rq = LookupOk (a :: rest) →
  is_Some (targetsMap st !! query_target rq) ∨ addResult rq = None →
  targetsMap (handle dep sc T st rq).1 !! query_target rq = Some (length (timers st)) ∧
  staticTargets (handle dep sc T st rq).1 = staticTargets st.
Proof.
  intros Hne Hl Hc. destruct (handle_ok dep sc T st rq a rest Hne Hl Hc) as (_ & Hm & _ & Hs).
  rewrite Hm, lookup_insert_eq. done.
Qed.

(** C4: the static target "example.com" queried on demand gets an
    Ephemeral Entry. *)
Lemma handler_registers_any_hostname_counterexample :
  "example.com" ∈ staticTargets
     (run true rttBoth 10 (initState ["example.com"]) [Req (okRequest "example.com" addr_example)]).1 ∧
  is_Some (targetsMap
     (run true rttBoth 10 (initState ["example.com"]) [Req (okRequest "example.com" addr_example)]).1
     !! "example.com").
Proof. split; [by left | vm_compute; by eexists]. Qed.

Lemma handler_registers_any_hostname_witness :
  targetsMap (handle true rttBoth 10 (initState ["example.com"]) (okRequest "example.com" addr_example)).1
    !! "example.com" = Some 0 ∧
  staticTargets (handle true rttBoth 10 (initState ["example.com"]) (okRequest "example.com" addr_example)).1
    = ["example.com"].
Proof.
  apply (handler_registers_any_hostname true rttBoth 10 (initState ["example.com"])
           (okRequest "example.com" addr_example) addr_example []).
  - discriminate.
  - reflexivity.
  - right. reflexivity.
Defined.

(** C5: the handler's [targetsMap.Load], [Stop] and [targetsMap.Store]
    are separate atomic steps of concurrent goroutines. Two requests for
    the live ephemeral hostname "h" can both load its stored timer, both
    stop it and both store a new one: two expiry timers of "h" are then
    pending, and the first of them is no longer the one [targetsMap]
    points to. The same requests handled one after the other leave a
    single pending timer. *)
Theorem concurrent_refresh_two_live_timers :
  let c := crun true rttBoth 10 (initState [], [])
             [Spawn (okRequest "h" addr_h); Step 0; Step 0; Step 0; Step 0;
              Spawn (okRequest "h" addr_h); Spawn (okRequest "h" addr_h);
              Step 1; Step 2; Step 1; Step 2; Step 1; Step 2] in
  liveTimers "h" c.1 = 2 ∧
  targetsMap c.1 !! "h" = Some 2 ∧
  (∃ t, timers c.1 !! 1 = Some t ∧ t_host t = "h" ∧ t_live t = true) ∧
  liveTimers "h" (run true rttBoth 10 (initState [])
                    [Req (okRequest "h" addr_h); Req (okRequest "h" addr_h);
                     Req (okRequest "h" addr_h)]).1 = 1.
Proof.
  cbv zeta. split_and!.
  - vm_compute. reflexivity.
  - vm_compute. reflexivity.
  - vm_compute. eexists. split_and!; reflexivity.
  - vm_compute. reflexivity.
Qed.

(** C6: "h" is requested at 0s and refreshed at 5s, then left idle for 11s
    with a timeout of 10s. Its entry is gone but its identity is still
    registered with the engine: the refreshed timer's callback captured a
    target with no addresses, so its cleanUp deregisters nothing. *)
Lemma ephemeral_refresh_leaks_registration :
  let st := (run true rttBoth 10 (initState [])
               [Req (okRequest "h" addr_h); Tick 5000000000;
                Req (okRequest "h" addr_h); Tick 11000000000]).1 in
  targetsMap st !! "h" = None ∧ nameForIP "h" addr_h ∈ engine st.
Proof.
  cbv zeta. split.
  - vm_compute. reflexivity.
  - apply (bool_decide_eq_true_1 (_ ∈ (_ : gset string))). vm_compute. reflexivity.
Qed.

(** C7: an on-demand request is answered 400 with a non-empty body and
    leaves the state untouched when resolution errors or yields no
    address; 500 when the hostname has no entry and the engine refuses the
    address; otherwise 200 with the single-target export of the first
    address's identity, its expiry timer (re)armed with the deadline
    [time.AfterFunc] gives a [targets.timeout]-second duration. *)
Theorem handle_on_demand_status (dep : bool) (sc : rttUnit) (T : Z)
    (st : State) (rq : Request) :
  query_target rq ≠ "" →
  (∀ msg : string, lookup rq = LookupErr msg →
     ∃ body, handle dep sc T st rq = (st, RText StatusBadRequest body) ∧ body ≠ "") ∧
  (lookup rq = LookupOk [] →
     ∃ body, handle dep sc T st rq = (st, RText StatusBadRequest body) ∧ body ≠ "") ∧
  (∀ (a : IPAddr) (rest : list IPAddr) (e : string),
     lookup rq = LookupOk (a :: rest) → targetsMap st !! query_target rq = None →
     addResult rq = Some e →
     ∃ body, handle dep sc T st rq = (st, RText StatusInternalServerError body)) ∧
  (∀ (a : IPAddr) (rest : list IPAddr),
     lookup rq = LookupOk (a :: rest) →
     is_Some (targetsMap st !! query_target rq) ∨ addResult rq = None →
     (handle dep sc T st rq).2
       = RMetrics StatusOK (singleCollect dep sc (nameForIP (query_target rq) a) (snapshot rq)) ∧
     targetsMap (handle dep sc T st rq).1 !! query_target rq = Some (length (timers st)) ∧
     ∃ addrs, timers (handle dep sc T st rq).1 !! length (timers st)
                = Some (mkTimer (query_target rq) (afterFuncWhen (now st) (timeoutDuration T)) addrs true)).
Proof.
  intros Hne. split_and!.
  - intros msg Hl. unfold handle. rewrite decide_False, Hl by done.
    eexists. split; [reflexivity |]. unfold httpError. by destruct msg.
  - intros Hl. unfold handle. rewrite decide_False, Hl by done.
    eexists. split; [reflexivity | discriminate].
  - intros a rest e Hl Hm He. unfold handle. rewrite decide_False, Hl, Hm by done.
    unfold addIfNew. rewrite decide_False by apply not_elem_of_nil. rewrite He.
    by eexists.
  - intros a rest Hl Hc.
    destruct (handle_ok dep sc T st rq a rest Hne Hl Hc) as (Hr & Hm & Ht & _).
    split_and!; [exact Hr | by rewrite Hm, lookup_insert_eq | exact Ht].
Qed.

Lemma handle_on_demand_status_witness :
  ∃ body, handle true rttBoth 10 (initState []) (mkRequest "nonexistent.invalid"
            (LookupErr "lookup nonexistent.invalid: no such host") None ∅)
          = (initState [], RText StatusBadRequest body) ∧ body ≠ "".
Proof.
  destruct (handle_on_demand_status true rttBoth 10 (initState [])
           (mkRequest "nonexistent.invalid" (LookupErr "lookup nonexistent.invalid: no such host") None ∅))
    as [H400 _].
  - discriminate.
  - exact (H400 _ eq_refl).
Defined.

(** ** The collectors *)

Lemma break_space_Some (s a r : string) :
  break_space s = Some (a, r) → s = a +:+ " " +:+ r.
Proof.
  revert a r. induction s as [|c s IH]; intros a r; simpl; [discriminate |].
  destruct (Ascii.eqb c " "%char) eqn:Ec.
  - apply Ascii.eqb_eq in Ec as ->. by intros [= <- <-].
  - destruct (break_space s) as [[a' r']|]; [| discriminate].
    intros [= <- <-]. simpl. by rewrite (IH a' r' eq_refl).
Qed.

Lemma SplitN_nonempty (n : nat) (s : string) : n ≠ 0 → SplitN n s ≠ [].
Proof.
  destruct n as [|[|n]]; simpl; [done | discriminate |].
  destruct (break_space s) as [[a r]|]; discriminate.
Qed.

Lemma Join_SplitN (n : nat) (s : string) : n ≠ 0 → Join (SplitN n s) = s.
Proof.
  revert s. induction n as [|n IH]; intros s Hn; [done |].
  destruct n as [|n]; [done |].
  change (SplitN (S (S n)) s) with
    (match break_space s with None => [s] | Some (a, r) => a :: SplitN (S n) r end).
  destruct (break_space s) as [[a r]|] eqn:E; [| done].
  apply break_space_Some in E as ->.
  pose proof (IH r ltac:(lia)) as IHr.
  destruct (SplitN (S n) r) as [|y ys] eqn:E2.
  - exfalso. by apply (SplitN_nonempty (S n) r).
  - change (Join (a :: y :: ys)) with (a +:+ " " +:+ Join (y :: ys)). by rewrite IHr.
Qed.

Lemma SplitN_inj (k k' : string) : SplitN 3 k = SplitN 3 k' → k = k'.
Proof.
  intros H. rewrite <- (Join_SplitN 3 k), <- (Join_SplitN 3 k') by lia. by rewrite H.
Qed.

Lemma scaledCollect_ok (sc : rttUnit) (sd : scaledDesc) (v : Q) (lvs : list string) :
  length lvs = length (scaledLabels sd) →
  scaledCollect sc sd v lvs = Some (scaledMetrics sc sd v lvs).
Proof.
  intros H. unfold scaledCollect, scaledMetrics, MustNewConstMetric.
  destruct sc; simpl; rewrite H, Nat.eqb_refl; reflexivity.
Qed.

Lemma collectTarget_Some (dep : bool) (sc : rttUnit) (k : string) (m : Metrics)
    (out : list Metric) :
  collectTarget dep sc k m = Some out ↔
  length (SplitN 3 k) = 3 ∧ out = targetMetrics dep sc k m.
Proof.
  unfold collectTarget, targetMetrics.
  destruct (decide (length (SplitN 3 k) = 3)) as [H3|H3].
  - assert (H4 : ∀ ty : string, length (SplitN 3 k ++ [ty]) = 4)
      by (intros ty; rewrite length_app, H3; reflexivity).
    rewrite !scaledCollect_ok by (rewrite ?H4, ?H3; reflexivity).
    unfold MustNewConstMetric at 1. rewrite H3. simpl.
    destruct (PacketsLost m <? PacketsSent m), dep; simpl; rewrite ?app_nil_r;
      (split; [intros [= <-]; by rewrite ?app_assoc | intros [_ ->]; by rewrite ?app_assoc]).
  - split; [| by intros [? _]]. intros H.
    apply bind_Some in H as (r & _ & H). apply bind_Some in H as (loss & H & _).
    assert (E : (length (SplitN 3 k) =? length (variableLabels lossDesc)) = false)
      by (apply Nat.eqb_neq; exact H3).
    unfold MustNewConstMetric in H. rewrite E in H. discriminate.
Qed.

Lemma mapM_collectTarget_Some (dep : bool) (sc : rttUnit)
    (l : list (string * Metrics)) (rs : list (list Metric)) :
  mapM (fun kv => collectTarget dep sc kv.1 kv.2) l = Some rs ↔
  Forall (fun kv => length (SplitN 3 kv.1) = 3) l ∧
  rs = map (fun kv => targetMetrics dep sc kv.1 kv.2) l.
Proof.
  revert rs. induction l as [|[k m] l IH]; intros rs; simpl.
  - split; [intros [= <-]; done | intros [_ ->]; done].
  - rewrite bind_Some. split.
    + intros (r & Hr & H). apply bind_Some in H as (rs' & Hrs & [= <-]).
      apply collectTarget_Some in Hr as [H3 ->]. apply IH in Hrs as [HF ->].
      split; [by constructor | done].
    + intros [HF ->]. apply Forall_cons in HF as [H3 HF].
      exists (targetMetrics dep sc k m). split; [by apply collectTarget_Some |].
      apply bind_Some. exists (map (fun kv => targetMetrics dep sc kv.1 kv.2) l).
      split; [by apply IH | done].
Qed.

Lemma batchCollect_Some (dep : bool) (sc : rttUnit) (p : pingBatchCollector)
    (export : gmap string Metrics) (out : list Metric) :
  (batchCollect dep sc p export).2 = Some out ↔
  (∀ k m, cached (batchCollect dep sc p export).1 !! k = Some m → length (SplitN 3 k) = 3) ∧
  out = upMetric :: concat (map (fun kv => targetMetrics dep sc kv.1 kv.2)
                          (map_to_list (cached (batchCollect dep sc p export).1))).
Proof.
  unfold batchCollect, renderBatch. simpl.
  generalize (if decide (0 < size export) then mkBatch export else p) as p'. intros p'.
  unfold MustNewConstMetric; simpl. rewrite bind_Some. split.
  - intros (rs & Hrs & [= <-]). apply mapM_collectTarget_Some in Hrs as [HF ->].
    split; [| done]. intros k m Hk.
    apply elem_of_map_to_list in Hk. rewrite Forall_forall in HF.
    exact (HF (k, m) Hk).
  - intros [H3 ->]. eexists. split; [| reflexivity].
    apply mapM_collectTarget_Some. split; [| done].
    apply Forall_forall. intros [k m] Hk. apply elem_of_map_to_list in Hk. exact (H3 k m Hk).
Qed.

Lemma singleCollect_Some (dep : bool) (sc : rttUnit) (tg : string)
    (export : gmap string Metrics) (m : Metrics) (out : list Metric) :
  export !! tg = Some m →
  singleCollect dep sc tg export = Some out ↔
  length (SplitN 3 tg) = 3 ∧ out = upMetric :: targetMetrics dep sc tg m.
Proof.
  intros Hm. unfold singleCollect. rewrite Hm.
  unfold MustNewConstMetric; simpl. rewrite bind_Some. split.
  - intros (r & Hr & [= <-]). apply collectTarget_Some in Hr as [H3 ->]. done.
  - intros [H3 ->]. exists (targetMetrics dep sc tg m). split; [by apply collectTarget_Some | done].
Qed.

(** The samples of one identity, by kind. *)
Lemma in_targetMetrics (dep : bool) (sc : rttUnit) (k : string) (m : Metrics) (x : Metric) :
  x ∈ targetMetrics dep sc k m ↔
  (PacketsLost m < PacketsSent m ∧ dep = true ∧ ∃ st s, s ∈ scaledUnits sc ∧
     x = mkMetric (scaledDescFor rttDesc s) (scaleValue s (statValue st m)) (SplitN 3 k ++ [statType st])) ∨
  (PacketsLost m < PacketsSent m ∧ ∃ st s, s ∈ scaledUnits sc ∧
     x = mkMetric (scaledDescFor (statDesc st) s) (scaleValue s (statValue st m)) (SplitN 3 k)) ∨
  x = mkMetric lossDesc (float_div (PacketsLost m) (PacketsSent m)) (SplitN 3 k).
Proof.
  assert (Hst : ∀ st, In st allStats) by (intros []; simpl; tauto).
  unfold targetMetrics. rewrite list_elem_of_In, in_app_iff.
  destruct (Nat.ltb_spec (PacketsLost m) (PacketsSent m)) as [Hlt|Hge].
  - rewrite in_app_iff. cbn [In]. split.
    + intros [[Hd|Hn]|[<-|[]]].
      * destruct dep; [| destruct Hd].
        apply in_concat in Hd as (ms & Hms & Hx). apply in_map_iff in Hms as (st & <- & _).
        apply in_map_iff in Hx as (s & <- & Hs). left. split_and!; [done | done |].
        exists st, s. split; [by apply list_elem_of_In | done].
      * apply in_concat in Hn as (ms & Hms & Hx). apply in_map_iff in Hms as (st & <- & _).
        apply in_map_iff in Hx as (s & <- & Hs). right; left. split; [done |].
        exists st, s. split; [by apply list_elem_of_In | done].
      * right; right. reflexivity.
    + intros [(_ & -> & st & s & Hs & ->)|[(_ & st & s & Hs & ->)| ->]].
      * left; left. apply in_concat. eexists. split.
        { apply in_map_iff. exists st. split; [reflexivity | apply Hst]. }
        apply in_map_iff. exists s. split; [reflexivity | by apply list_elem_of_In].
      * left; right. apply in_concat. eexists. split.
        { apply in_map_iff. exists st. split; [reflexivity | apply Hst]. }
        apply in_map_iff. exists s. split; [reflexivity | by apply list_elem_of_In].
      * right; left. reflexivity.
  - cbn [In]. split.
    + intros [[]|[<-|[]]]. right; right. reflexivity.
    + intros [(? & _)|[(? & _)| ->]]; [lia | lia | right; left; reflexivity].
Qed.

Lemma targetMetrics_identity (dep : bool) (sc : rttUnit) (k : string) (m : Metrics) (x : Metric) :
  length (SplitN 3 k) = 3 → x ∈ targetMetrics dep sc k m → sampleIdentity x = SplitN 3 k.
Proof.
  intros H3 Hx. apply in_targetMetrics in Hx as [(_ & _ & st & s & _ & ->)|[(_ & st & s & _ & ->)| ->]];
    unfold sampleIdentity; cbn [labelValues]; remember (SplitN 3 k) as l; rewrite <- H3.
  - apply take_app_length.
  - apply take_ge. lia.
  - apply take_ge. lia.
Qed.

Lemma upMetric_identity : sampleIdentity upMetric = [].
Proof. reflexivity. Qed.

(** Every batch sample is the up gauge or a sample of a cached identity. *)
Lemma batch_samples (dep : bool) (sc : rttUnit) (p : pingBatchCollector)
    (export : gmap string Metrics) (out : list Metric) (x : Metric) :
  (batchCollect dep sc p export).2 = Some out → x ∈ out →
  x = upMetric ∨ ∃ k m, cached (batchCollect dep sc p export).1 !! k = Some m ∧
                        length (SplitN 3 k) = 3 ∧ x ∈ targetMetrics dep sc k m.
Proof.
  intros Hout Hx. apply batchCollect_Some in Hout as [H3 ->].
  apply elem_of_cons in Hx as [->|Hx]; [by left | right].
  apply list_elem_of_In, in_concat in Hx as (ms & Hms & Hx).
  apply in_map_iff in Hms as ([k m] & <- & Hkm).
  apply list_elem_of_In, elem_of_map_to_list in Hkm.
  exists k, m. split_and!; [done | by apply (H3 k m) | by apply list_elem_of_In].
Qed.

Lemma batch_renders (dep : bool) (sc : rttUnit) (p p' : pingBatchCollector)
    (export : gmap string Metrics) (out : list Metric) (k : string) (m : Metrics) :
  batchCollect dep sc p export = (p', Some out) → cached p' !! k = Some m →
  RendersTarget dep sc out k m.
Proof.
  intros Hb Hk.
  assert (Hout : (batchCollect dep sc p export).2 = Some out) by (by rewrite Hb).
  assert (Hp : (batchCollect dep sc p export).1 = p') by (by rewrite Hb).
  pose proof Hout as Hout'. apply batchCollect_Some in Hout' as [H3 Hos]. rewrite Hp in H3, Hos.
  split_and!.
  - by apply (H3 k m).
  - intros x Hx. rewrite Hos. apply elem_of_cons. right.
    apply list_elem_of_In, in_concat. exists (targetMetrics dep sc k m). split.
    + apply in_map_iff. exists (k, m). split; [done |].
      apply list_elem_of_In, elem_of_map_to_list, Hk.
    + by apply list_elem_of_In.
  - intros x Hx Hid.
    destruct (batch_samples dep sc p export out x Hout Hx) as [->|(k' & m' & Hk' & H3' & Hx')].
    + exfalso. rewrite upMetric_identity in Hid.
      by apply (SplitN_nonempty 3 k).
    + rewrite Hp in Hk'.
      rewrite (targetMetrics_identity dep sc k' m' x H3' Hx') in Hid.
      apply SplitN_inj in Hid as ->. rewrite Hk in Hk'. by injection Hk' as ->.
Qed.

Lemma single_renders (dep : bool) (sc : rttUnit) (tg : string)
    (export : gmap string Metrics) (out : list Metric) (m : Metrics) :
  singleCollect dep sc tg export = Some out → export !! tg = Some m →
  RendersTarget dep sc out tg m.
Proof.
  intros Hs Hm. apply (singleCollect_Some dep sc tg export m out Hm) in Hs as [H3 ->].
  split_and!; [done | intros x Hx; by apply elem_of_cons; right |].
  intros x Hx Hid. apply elem_of_cons in Hx as [->|Hx]; [| done].
  exfalso. rewrite upMetric_identity in Hid. by apply (SplitN_nonempty 3 tg).
Qed.

Lemma scaledDescFor_inj (sd sd' : scaledDesc) (s s' : unit_scale) :
  scaledDescFor sd s = scaledDescFor sd' s' →
  scaledName sd = scaledName sd' ∧ s = s'.
Proof.
  unfold scaledDescFor. intros [= Hn _ Hs _].
  split; [exact Hn | done].
Qed.

Lemma lossDesc_not_scaled (sd : scaledDesc) (s : unit_scale) : lossDesc ≠ scaledDescFor sd s.
Proof. discriminate. Qed.

Lemma statDesc_name_inj (st st' : rttStat) :
  scaledName (statDesc st) = scaledName (statDesc st') → st = st'.
Proof. destruct st, st'; simpl; (reflexivity || discriminate). Qed.

Lemma statDesc_not_rtt (st : rttStat) : scaledName (statDesc st) ≠ scaledName rttDesc.
Proof. destruct st; discriminate. Qed.

Lemma statType_inj (st st' : rttStat) : statType st = statType st' → st = st'.
Proof. destruct st, st'; simpl; (reflexivity || discriminate). Qed.

Lemma renders_rtt (dep : bool) (sc : rttUnit) (out : list Metric) (k : string) (m : Metrics) :
  RendersTarget dep sc out k m → RttPolicy sc out k m.
Proof.
  intros (H3 & Hin & Hout). split.
  - intros Hlt st s Hs.
    exists (mkMetric (scaledDescFor (statDesc st) s) (scaleValue s (statValue st m)) (SplitN 3 k)).
    split_and!; [| done | done]. apply Hin, in_targetMetrics. right; left.
    split; [done |]. by exists st, s.
  - intros Hge x Hx Hr Hid. apply (Hout x Hx) in Hid.
    apply in_targetMetrics in Hid as [(? & _)|[(? & _)| ->]]; [lia | lia |].
    destruct Hr as (sd & s & _ & Hd). simpl in Hd. by apply lossDesc_not_scaled in Hd.
Qed.

Lemma float_div_unit (a b : nat) :
  0 < b → a ≤ b → ∃ q, float_div a b = FNum q ∧ (0 <= q)%Q ∧ (q <= 1)%Q.
Proof.
  intros Hb Hab. destruct b as [|b]; [lia |].
  exists (inject_Z (Z.of_nat a) / inject_Z (Z.of_nat (S b)))%Q. split; [reflexivity |].
  assert (Hpos : (0 < inject_Z (Z.of_nat (S b)))%Q)
    by (change 0%Q with (inject_Z 0); rewrite <- Zlt_Qlt; lia).
  split.
  - apply Qle_shift_div_l; [exact Hpos |].
    rewrite Qmult_0_l. change 0%Q with (inject_Z 0). rewrite <- Zle_Qle. lia.
  - apply Qle_shift_div_r; [exact Hpos |].
    rewrite Qmult_1_l. rewrite <- Zle_Qle. lia.
Qed.

Lemma renders_loss (dep : bool) (sc : rttUnit) (out : list Metric) (k : string) (m : Metrics) :
  RendersTarget dep sc out k m → LossPolicy out k m.
Proof.
  intros (H3 & Hin & Hout). split.
  - exists (mkMetric lossDesc (float_div (PacketsLost m) (PacketsSent m)) (SplitN 3 k)).
    split_and!; [| done | done | done]. apply Hin, in_targetMetrics. right; right. reflexivity.
  - intros Hs Hl x Hx Hd Hlv.
    assert (Hid : sampleIdentity x = SplitN 3 k).
    { unfold sampleIdentity. rewrite Hlv. apply take_ge. lia. }
    apply (Hout x Hx) in Hid.
    apply in_targetMetrics in Hid as [(_ & _ & st & s & _ & ->)|[(_ & st & s & _ & ->)| ->]].
    + simpl in Hd. symmetry in Hd. by apply lossDesc_not_scaled in Hd.
    + simpl in Hd. symmetry in Hd. by apply lossDesc_not_scaled in Hd.
    + simpl. by apply float_div_unit.
Qed.

Lemma renders_typed_value (sc : rttUnit) (out : list Metric) (k : string) (m : Metrics)
    (st : rttStat) (s : unit_scale) (x : Metric) :
  RendersTarget true sc out k m → x ∈ out →
  desc x = scaledDescFor rttDesc s → labelValues x = SplitN 3 k ++ [statType st] →
  value x = scaleValue s (statValue st m).
Proof.
  intros (H3 & _ & Hout) Hx Hd Hlv.
  assert (Hid : sampleIdentity x = SplitN 3 k).
  { unfold sampleIdentity. rewrite Hlv. remember (SplitN 3 k) as l. rewrite <- H3.
    apply take_app_length. }
  apply (Hout x Hx) in Hid.
  apply in_targetMetrics in Hid as [(_ & _ & st' & s' & _ & ->)|[(_ & st' & s' & _ & ->)| ->]];
    simpl in Hd, Hlv |- *.
  - apply scaledDescFor_inj in Hd as [_ ->].
    apply app_inj_tail in Hlv as [_ Ht]. by apply statType_inj in Ht as ->.
  - apply scaledDescFor_inj in Hd as [Hn _]. by apply statDesc_not_rtt in Hn.
  - by apply lossDesc_not_scaled in Hd.
Qed.

Lemma renders_named_value (dep : bool) (sc : rttUnit) (out : list Metric) (k : string)
    (m : Metrics) (st : rttStat) (s : unit_scale) (y : Metric) :
  RendersTarget dep sc out k m → y ∈ out →
  desc y = scaledDescFor (statDesc st) s → labelValues y = SplitN 3 k →
  value y = scaleValue s (statValue st m).
Proof.
  intros (H3 & _ & Hout) Hy Hd Hlv.
  assert (Hid : sampleIdentity y = SplitN 3 k).
  { unfold sampleIdentity. rewrite Hlv. apply take_ge. lia. }
  apply (Hout y Hy) in Hid.
  apply in_targetMetrics in Hid as [(_ & _ & st' & s' & _ & ->)|[(_ & st' & s' & _ & ->)| ->]];
    simpl in Hd, Hlv |- *.
  - apply scaledDescFor_inj in Hd as [Hn _]. symmetry in Hn. by apply statDesc_not_rtt in Hn.
  - apply scaledDescFor_inj in Hd as [Hn ->]. by apply statDesc_name_inj in Hn as ->.
  - by apply lossDesc_not_scaled in Hd.
Qed.

Lemma renders_typed_agree (sc : rttUnit) (out : list Metric) (k : string) (m : Metrics) :
  RendersTarget true sc out k m → PacketsLost m < PacketsSent m → TypeLabelledAgree sc out k.
Proof.
  intros HR Hlt st s Hs. pose proof HR as (H3 & Hin & _). split_and!.
  - exists (mkMetric (scaledDescFor rttDesc s) (scaleValue s (statValue st m)) (SplitN 3 k ++ [statType st])).
    split_and!; [| done | done]. apply Hin, in_targetMetrics. left.
    split_and!; [done | done |]. by exists st, s.
  - exists (mkMetric (scaledDescFor (statDesc st) s) (scaleValue s (statValue st m)) (SplitN 3 k)).
    split_and!; [| done | done]. apply Hin, in_targetMetrics. right; left.
    split; [done |]. by exists st, s.
  - intros x y Hx Hy Hdx Hlx Hdy Hly.
    rewrite (renders_typed_value sc out k m st s x HR Hx Hdx Hlx).
    by rewrite (renders_named_value true sc out k m st s y HR Hy Hdy Hly).
Qed.

Lemma targetMetrics_untyped (sc : rttUnit) (k : string) (m : Metrics) (x : Metric) (s : unit_scale) :
  x ∈ targetMetrics false sc k m → desc x ≠ scaledDescFor rttDesc s.
Proof.
  intros Hx Hd. apply in_targetMetrics in Hx as [(_ & ? & _)|[(_ & st & s' & _ & ->)| ->]];
    [discriminate | |]; simpl in Hd.
  - apply scaledDescFor_inj in Hd as [Hn _]. by apply statDesc_not_rtt in Hn.
  - by apply lossDesc_not_scaled in Hd.
Qed.

Lemma targetMetrics_labels (dep : bool) (sc : rttUnit) (k : string) (m : Metrics) (x : Metric) :
  length (SplitN 3 k) = 3 → x ∈ targetMetrics dep sc k m → LabelsFit x k.
Proof.
  intros H3 Hx.
  apply in_targetMetrics in Hx as [(_ & _ & st & s & _ & ->)|[(_ & st & s & _ & ->)| ->]];
    unfold LabelsFit; cbn [desc labelValues].
  - split; [rewrite length_app, H3; reflexivity |].
    right. exists (statType st). split; reflexivity.
  - split; [rewrite H3; destruct st; reflexivity |].
    left. destruct st; split; reflexivity.
  - split; [rewrite H3; reflexivity |]. left. split; reflexivity.
Qed.

Lemma single_samples (dep : bool) (sc : rttUnit) (tg : string)
    (export : gmap string Metrics) (out : list Metric) (x : Metric) :
  singleCollect dep sc tg export = Some out → x ∈ out →
  x = upMetric ∨ ∃ m, export !! tg = Some m ∧ x ∈ targetMetrics dep sc tg m.
Proof.
  intros Hs Hx. destruct (export !! tg) as [m|] eqn:Hm.
  - apply (singleCollect_Some dep sc tg export m out Hm) in Hs as [_ ->].
    apply elem_of_cons in Hx as [->|Hx]; [by left | right]. by exists m.
  - unfold singleCollect in Hs. rewrite Hm in Hs. injection Hs as <-.
    by apply elem_of_nil in Hx.
Qed.

Lemma upMetric_untyped (s : unit_scale) : desc upMetric ≠ scaledDescFor rttDesc s.
Proof. discriminate. Qed.

Lemma upMetric_gauge : IsUpGauge upMetric.
Proof. split_and!; reflexivity. Qed.

(** * Claims *)

(** C1 (amended). The batch collector keeps the last non-empty snapshot:
    after any sequence of pulls its cache is the last non-empty pull (or
    the initial cache), and each call renders the fresh pull when it is
    non-empty and the cached one otherwise. The single-target collector
    keeps no snapshot: its output depends on the fresh pull alone, and a
    fresh pull without the requested identity renders nothing. *)
Theorem snapshot_refresh_policy (dep : bool) (sc : rttUnit) :
  (∀ p pulls, cached (collectMany dep sc p pulls) = lastNonEmpty (cached p) pulls) ∧
  (∀ p export, batchCollect dep sc p export =
     (mkBatch (lastNonEmpty (cached p) [export]),
      renderBatch dep sc (lastNonEmpty (cached p) [export]))) ∧
  (∀ tg export export', export !! tg = export' !! tg →
     singleCollect dep sc tg export = singleCollect dep sc tg export') ∧
  (∀ tg export, export !! tg = None → singleCollect dep sc tg export = Some []).
Proof.
  split_and!.
  - intros p pulls. revert p. unfold collectMany, lastNonEmpty.
    induction pulls as [|e pulls IH]; intros p; [reflexivity |].
    cbn [foldl]. rewrite IH. f_equal. unfold batchCollect. simpl.
    by destruct (decide (0 < size e)).
  - intros p export. unfold batchCollect, lastNonEmpty. simpl.
    by destruct (decide (0 < size export)); destruct p.
  - intros tg export export' He. unfold singleCollect. by rewrite He.
  - intros tg export He. unfold singleCollect. by rewrite He.
Qed.

(** The single-target collector serves no cached snapshot: on
    [snapshot_h] it sends the up gauge and the samples of the identity,
    and on the next pull, empty, it sends nothing. *)
Lemma snapshot_refresh_policy_counterexample :
  singleCollect true rttBoth "h 1.2.3.4 4" snapshot_h =
    Some (upMetric :: targetMetrics true rttBoth "h 1.2.3.4 4" metrics_h) ∧
  singleCollect true rttBoth "h 1.2.3.4 4" ∅ = Some [].
Proof. split; vm_compute; reflexivity. Qed.

Lemma snapshot_refresh_policy_witness :
  cached (collectMany true rttBoth (mkBatch ∅) [snapshot_h; ∅]) = snapshot_h ∧
  singleCollect true rttBoth "h 1.2.3.4 4" (∅ : gmap string Metrics) = Some [].
Proof.
  destruct (snapshot_refresh_policy true rttBoth) as (Hmany & _ & _ & Hnone). split.
  - rewrite Hmany. vm_compute. reflexivity.
  - apply Hnone. vm_compute. reflexivity.
Defined.

(** C2. For every identity of a rendered snapshot, in batch and in
    single-target mode: the four RTT statistics are sent (in every
    configured scale, with the identity's three labels) when
    [PacketsSent > PacketsLost], and no RTT sample of the identity is sent
    when [PacketsSent <= PacketsLost]. *)
Theorem rtt_emitted_iff_received (dep : bool) (sc : rttUnit) :
  (∀ p p' export out k m, batchCollect dep sc p export = (p', Some out) →
     cached p' !! k = Some m → RttPolicy sc out k m) ∧
  (∀ tg export out m, singleCollect dep sc tg export = Some out →
     export !! tg = Some m → RttPolicy sc out tg m).
Proof.
  split.
  - intros p p' export out k m Hb Hk. eapply renders_rtt, batch_renders; eassumption.
  - intros tg export out m Hs Hm. eapply renders_rtt, single_renders; eassumption.
Qed.

Lemma rtt_emitted_iff_received_witness :
  RttPolicy rttBoth (upMetric :: targetMetrics true rttBoth "h 1.2.3.4 4" metrics_h)
    "h 1.2.3.4 4" metrics_h ∧
  RttPolicy rttBoth (upMetric :: targetMetrics true rttBoth "h 1.2.3.4 4" metrics_h)
    "h 1.2.3.4 4" metrics_h.
Proof.
  destruct (rtt_emitted_iff_received true rttBoth) as [Hb Hs]. split.
  - apply (Hb (mkBatch ∅) (mkBatch snapshot_h) snapshot_h); vm_compute; reflexivity.
  - apply (Hs "h 1.2.3.4 4" snapshot_h); vm_compute; reflexivity.
Defined.

(** C3. For every identity of a rendered snapshot, in batch and in
    single-target mode, a loss sample with value
    [float64(PacketsLost) / float64(PacketsSent)] is sent whatever the
    counts (for [PacketsSent = 0] the value is NaN or +Inf); when
    [0 < PacketsSent] and [PacketsLost <= PacketsSent] every loss sample
    of the identity is a number in [0, 1]. *)
Theorem loss_ratio_emitted (dep : bool) (sc : rttUnit) :
  (∀ p p' export out k m, batchCollect dep sc p export = (p', Some out) →
     cached p' !! k = Some m → LossPolicy out k m) ∧
  (∀ tg export out m, singleCollect dep sc tg export = Some out →
     export !! tg = Some m → LossPolicy out tg m).
Proof.
  split.
  - intros p p' export out k m Hb Hk. eapply renders_loss, batch_renders; eassumption.
  - intros tg export out m Hs Hm. eapply renders_loss, single_renders; eassumption.
Qed.

Lemma loss_ratio_emitted_witness :
  LossPolicy (upMetric :: targetMetrics true rttBoth "h 1.2.3.4 4" metrics_h)
    "h 1.2.3.4 4" metrics_h ∧
  LossPolicy (upMetric :: targetMetrics true rttBoth "h 1.2.3.4 4" metrics_h)
    "h 1.2.3.4 4" metrics_h.
Proof.
  destruct (loss_ratio_emitted true rttBoth) as [Hb Hs]. split.
  - apply (Hb (mkBatch ∅) (mkBatch snapshot_h) snapshot_h); vm_compute; reflexivity.
  - apply (Hs "h 1.2.3.4 4" snapshot_h); vm_compute; reflexivity.
Defined.

(** C8 (amended). When every identity to render splits into three parts,
    neither collector panics on a label count, and every sample sent is
    either the up gauge (no variable label, the constant label
    [version]) or a sample of a rendered identity whose label values fit
    its descriptor: [target], [ip], [ip_version], plus [type] for the
    type-labelled RTT samples. *)
Theorem labels_fit (dep : bool) (sc : rttUnit) :
  (∀ p export,
     (∀ k m, cached (batchCollect dep sc p export).1 !! k = Some m → length (SplitN 3 k) = 3) →
     ∃ out, (batchCollect dep sc p export).2 = Some out ∧
       ∀ x, x ∈ out → IsUpGauge x ∨
         ∃ k m, cached (batchCollect dep sc p export).1 !! k = Some m ∧ LabelsFit x k) ∧
  (∀ tg export, length (SplitN 3 tg) = 3 →
     ∃ out, singleCollect dep sc tg export = Some out ∧
       ∀ x, x ∈ out → IsUpGauge x ∨ LabelsFit x tg).
Proof.
  split.
  - intros p export H3.
    set (out := upMetric :: concat (map (fun kv => targetMetrics dep sc kv.1 kv.2)
                  (map_to_list (cached (batchCollect dep sc p export).1)))).
    assert (Hout : (batchCollect dep sc p export).2 = Some out)
      by (apply batchCollect_Some; split; [exact H3 | reflexivity]).
    exists out. split; [exact Hout |]. intros x Hx.
    destruct (batch_samples dep sc p export out x Hout Hx) as [->|(k & m & Hk & Hk3 & Hxk)].
    + left. apply upMetric_gauge.
    + right. exists k, m. split; [exact Hk |]. by apply (targetMetrics_labels dep sc k m).
  - intros tg export H3. destruct (export !! tg) as [m|] eqn:Hm.
    + exists (upMetric :: targetMetrics dep sc tg m). split.
      { by apply (singleCollect_Some dep sc tg export m). }
      intros x Hx. apply elem_of_cons in Hx as [->|Hx].
      * left. apply upMetric_gauge.
      * right. by apply (targetMetrics_labels dep sc tg m).
    + exists []. split; [unfold singleCollect; by rewrite Hm |].
      intros x Hx. by apply elem_of_nil in Hx.
Qed.

(** The batch output on [snapshot_h] holds the up gauge, with no variable
    label, and type-labelled RTT samples, with four label values. *)
Lemma labels_fit_counterexample :
  batchCollect true rttBoth (mkBatch ∅) snapshot_h =
    (mkBatch snapshot_h, Some (upMetric :: targetMetrics true rttBoth "h 1.2.3.4 4" metrics_h)) ∧
  variableLabels (desc upMetric) = [] ∧ labelValues upMetric = [] ∧
  mkMetric (scaledDescFor rttDesc Seconds) (scaleValue Seconds (Best metrics_h))
    ["h"; "1.2.3.4"; "4"; "best"] ∈ targetMetrics true rttBoth "h 1.2.3.4 4" metrics_h ∧
  variableLabels (scaledDescFor rttDesc Seconds) = ["target"; "ip"; "ip_version"; "type"].
Proof.
  split_and!; try (vm_compute; reflexivity).
  apply in_targetMetrics. left. split_and!; [vm_compute; lia | reflexivity |].
  exists StatBest, Seconds. split; [vm_compute; set_solver | reflexivity].
Qed.

Lemma labels_fit_witness :
  (∃ out, (batchCollect true rttBoth (mkBatch ∅) snapshot_h).2 = Some out ∧
     ∀ x, x ∈ out → IsUpGauge x ∨
       ∃ k m, cached (batchCollect true rttBoth (mkBatch ∅) snapshot_h).1 !! k = Some m ∧
              LabelsFit x k) ∧
  (∃ out, singleCollect true rttBoth "h 1.2.3.4 4" snapshot_h = Some out ∧
     ∀ x, x ∈ out → IsUpGauge x ∨ LabelsFit x "h 1.2.3.4 4").
Proof.
  destruct (labels_fit true rttBoth) as [Hb Hs]. split.
  - apply Hb. intros k m Hk.
    assert (Hc : cached (batchCollect true rttBoth (mkBatch ∅) snapshot_h).1 = snapshot_h)
      by (vm_compute; reflexivity).
    rewrite Hc in Hk. unfold snapshot_h in Hk.
    apply lookup_singleton_Some in Hk as [<- _]. reflexivity.
  - apply Hs. vm_compute. reflexivity.
Defined.

(** C9. With the deprecated metrics enabled, for every identity with
    [PacketsSent > PacketsLost], in batch and single-target mode, each
    type-labelled RTT sample ([type] = best, worst, mean, std_dev, in
    every configured scale) is sent together with its separately named
    twin, and the two carry the same value. With them disabled, no
    type-labelled RTT sample is sent. *)
Theorem deprecated_rtt_matches (sc : rttUnit) :
  (∀ p p' export out k m, batchCollect true sc p export = (p', Some out) →
     cached p' !! k = Some m → PacketsLost m < PacketsSent m → TypeLabelledAgree sc out k) ∧
  (∀ tg export out m, singleCollect true sc tg export = Some out →
     export !! tg = Some m → PacketsLost m < PacketsSent m → TypeLabelledAgree sc out tg) ∧
  (∀ p export out, (batchCollect false sc p export).2 = Some out → NoTypeLabelled out) ∧
  (∀ tg export out, singleCollect false sc tg export = Some out → NoTypeLabelled out).
Proof.
  split_and!.
  - intros p p' export out k m Hb Hk Hlt.
    eapply renders_typed_agree; [eapply batch_renders; eassumption | exact Hlt].
  - intros tg export out m Hs Hm Hlt.
    eapply renders_typed_agree; [eapply single_renders; eassumption | exact Hlt].
  - intros p export out Hout x s Hx.
    destruct (batch_samples false sc p export out x Hout Hx) as [->|(k & m & _ & _ & Hxk)].
    + apply upMetric_untyped.
    + by apply (targetMetrics_untyped sc k m).
  - intros tg export out Hs x s Hx.
    destruct (single_samples false sc tg export out x Hs Hx) as [->|(m & _ & Hxk)].
    + apply upMetric_untyped.
    + by apply (targetMetrics_untyped sc tg m).
Qed.

Lemma deprecated_rtt_matches_witness :
  TypeLabelledAgree rttBoth (upMetric :: targetMetrics true rttBoth "h 1.2.3.4 4" metrics_h)
    "h 1.2.3.4 4" ∧
  TypeLabelledAgree rttBoth (upMetric :: targetMetrics true rttBoth "h 1.2.3.4 4" metrics_h)
    "h 1.2.3.4 4" ∧
  NoTypeLabelled (upMetric :: targetMetrics false rttBoth "h 1.2.3.4 4" metrics_h) ∧
  NoTypeLabelled (upMetric :: targetMetrics false rttBoth "h 1.2.3.4 4" metrics_h).
Proof.
  destruct (deprecated_rtt_matches rttBoth) as (Hb & Hs & Hbf & Hsf). split_and!.
  - apply (Hb (mkBatch ∅) (mkBatch snapshot_h) snapshot_h _ _ metrics_h);
      vm_compute; (reflexivity || lia).
  - apply (Hs "h 1.2.3.4 4" snapshot_h _ metrics_h); vm_compute; (reflexivity || lia).
  - apply (Hbf (mkBatch ∅) snapshot_h). vm_compute. reflexivity.
  - apply (Hsf "h 1.2.3.4 4" snapshot_h). vm_compute. reflexivity.
Defined.

(** C10. In single-target mode, when the fresh snapshot does not hold the
    requested identity, the collector sends no sample at all: neither
    the up gauge nor a loss sample. *)
Theorem single_missing_target_emits_nothing (dep : bool) (sc : rttUnit)
    (tg : string) (export : gmap string Metrics) :
  export !! tg = None → singleCollect dep sc tg export = Some [].
Proof. intros He. unfold singleCollect. by rewrite He. Qed.

Lemma single_missing_target_emits_nothing_witness :
  (∅ : gmap string Metrics) !! "h 1.2.3.4 4" = None ∧
  singleCollect true rttBoth "h 1.2.3.4 4" (∅ : gmap string Metrics) = Some [].
Proof.
  split; [reflexivity |].
  apply (single_missing_target_emits_nothing true rttBoth "h 1.2.3.4 4" ∅). reflexivity.
Defined.

(** * Further properties of the collectors *)





Lemma filter_concat_one {A} (P : A → Prop) `{∀ x, Decision (P x)} (L : list (list A)) :
  (∀ l, l ∈ L → length (filter P l) = 1) → length (filter P (concat L)) = length L.
Proof.
  induction L as [|l L IH]; intros HL; simpl; [done |].
  rewrite filter_app, length_app, (HL l), IH; [done | |].
  - intros l' Hl'. apply HL. by right.
  - by left.
Qed.

Lemma filter_concat_zero {A} (P : A → Prop) `{∀ x, Decision (P x)} (L : list (list A)) :
  (∀ l, l ∈ L → length (filter P l) = 0) → length (filter P (concat L)) = 0.
Proof.
  induction L as [|l L IH]; intros HL; simpl; [done |].
  rewrite filter_app, length_app, (HL l), IH; [done | |].
  - intros l' Hl'. apply HL. by right.
  - by left.
Qed.

Lemma targetMetrics_count_loss (dep : bool) (sc : rttUnit) (k : string) (m : Metrics) :
  countName "ping_loss_percent" (targetMetrics dep sc k m) = 1.
Proof.
  unfold countName, targetMetrics.
  destruct dep, sc, (PacketsLost m <? PacketsSent m); reflexivity.
Qed.

Lemma targetMetrics_count_up (dep : bool) (sc : rttUnit) (k : string) (m : Metrics) :
  countName "ping_up" (targetMetrics dep sc k m) = 0.
Proof.
  unfold countName, targetMetrics.
  destruct dep, sc, (PacketsLost m <? PacketsSent m); reflexivity.
Qed.

Lemma scaledDescribe_elem (sc : rttUnit) (sd : scaledDesc) (s : unit_scale) :
  s ∈ scaledUnits sc → scaledDescFor sd s ∈ scaledDescribe sc sd.
Proof. intros Hs. unfold scaledDescribe. by apply list_elem_of_fmap_2. Qed.

Lemma targetMetrics_described (dep : bool) (sc : rttUnit) (k : string) (m : Metrics) (x : Metric) :
  x ∈ targetMetrics dep sc k m → desc x ∈ Describe dep sc.
Proof.
  intros Hx. unfold Describe.
  apply in_targetMetrics in Hx as [(_ & -> & st & s & Hs & ->)|[(_ & st & s & Hs & ->)| ->]];
    cbn [desc]; rewrite !elem_of_app.
  - left. by apply scaledDescribe_elem.
  - right. destruct st; cbn [statDesc].
    + left. by apply scaledDescribe_elem.
    + right; left. by apply scaledDescribe_elem.
    + right; right; left. by apply scaledDescribe_elem.
    + right; right; right; left. by apply scaledDescribe_elem.
  - right. right; right; right; right. by left.
Qed.

Lemma upMetric_described (dep : bool) (sc : rttUnit) : desc upMetric ∈ Describe dep sc.
Proof.
  unfold Describe. rewrite !elem_of_app. right; right; right; right; right.
  right. by left.
Qed.





Lemma targetMetrics_loss_filter (dep : bool) (sc : rttUnit) (k : string) (m : Metrics) :
  filter (λ x, fqName (desc x) = "ping_loss_percent") (targetMetrics dep sc k m)
  = [mkMetric lossDesc (float_div (PacketsLost m) (PacketsSent m)) (SplitN 3 k)].
Proof.
  unfold targetMetrics.
  destruct dep, sc, (PacketsLost m <? PacketsSent m); reflexivity.
Qed.

Lemma loss_filter_concat (dep : bool) (sc : rttUnit) (L : list (string * Metrics)) :
  filter (λ x, fqName (desc x) = "ping_loss_percent")
    (concat (map (fun kv => targetMetrics dep sc kv.1 kv.2) L))
  = map (fun kv => mkMetric lossDesc (float_div (PacketsLost kv.2) (PacketsSent kv.2))
                     (SplitN 3 kv.1)) L.
Proof.
  induction L as [|[k m] L IH]; cbn [map concat]; [done |].
  rewrite filter_app, targetMetrics_loss_filter, IH. reflexivity.
Qed.

Lemma loss_filter_absent (k : string) (L : list (string * Metrics)) :
  k ∉ L.*1 →
  filter (λ x, labelValues x = SplitN 3 k)
    (map (fun kv => mkMetric lossDesc (float_div (PacketsLost kv.2) (PacketsSent kv.2))
                      (SplitN 3 kv.1)) L) = [].
Proof.
  induction L as [|[k' m'] L IH]; intros Hk; cbn [map]; [done |].
  rewrite fmap_cons, elem_of_cons in Hk.
  rewrite filter_cons, decide_False.
  - apply IH. intros Hin. apply Hk. by right.
  - cbn [labelValues fst]. intros E. apply SplitN_inj in E as ->. apply Hk. by left.
Qed.

Lemma loss_filter_unique (k : string) (m : Metrics) (L : list (string * Metrics)) :
  NoDup L.*1 → (k, m) ∈ L →
  filter (λ x, labelValues x = SplitN 3 k)
    (map (fun kv => mkMetric lossDesc (float_div (PacketsLost kv.2) (PacketsSent kv.2))
                      (SplitN 3 kv.1)) L)
  = [mkMetric lossDesc (float_div (PacketsLost m) (PacketsSent m)) (SplitN 3 k)].
Proof.
  induction L as [|[k' m'] L IH]; intros Hnd Hin; [by apply elem_of_nil in Hin |].
  rewrite fmap_cons in Hnd. apply NoDup_cons in Hnd as [Hk' Hnd].
  cbn [map]. rewrite filter_cons.
  apply elem_of_cons in Hin as [Hin|Hin].
  - injection Hin as -> ->. rewrite decide_True by done. f_equal.
    by apply loss_filter_absent.
  - assert (Hne : k ≠ k').
    { intros ->. apply Hk'. apply list_elem_of_fmap. exists (k', m). split; [done | exact Hin]. }
    rewrite decide_False; [by apply IH |].
    cbn [labelValues fst]. intros E. apply SplitN_inj in E. congruence.
Qed.

(** X3. A batch export sends the up gauge exactly once, and exactly one
    loss sample per identity of the snapshot it renders: the one sample
    named [ping_loss_percent] with that identity's labels, whose value is
    its loss ratio. *)
Theorem batch_counts (dep : bool) (sc : rttUnit) (p : pingBatchCollector)
    (export : gmap string Metrics) (out : list Metric) :
  (batchCollect dep sc p export).2 = Some out →
  countName "ping_up" out = 1 ∧
  countName "ping_loss_percent" out = size (cached (batchCollect dep sc p export).1) ∧
  ∀ k m, cached (batchCollect dep sc p export).1 !! k = Some m →
    filter (λ x, fqName (desc x) = "ping_loss_percent" ∧ labelValues x = SplitN 3 k) out
    = [mkMetric lossDesc (float_div (PacketsLost m) (PacketsSent m)) (SplitN 3 k)].
Proof.
  intros Hout. apply batchCollect_Some in Hout as [_ ->].
  split_and!.
  - unfold countName. rewrite filter_cons, decide_True by reflexivity.
    cbn [length]. f_equal. apply filter_concat_zero.
    intros l Hl. apply list_elem_of_fmap in Hl as ([k m] & -> & _).
    apply targetMetrics_count_up.
  - unfold countName. rewrite filter_cons, decide_False by discriminate.
    rewrite filter_concat_one, length_map, length_map_to_list; [done |].
    intros l Hl. apply list_elem_of_fmap in Hl as ([k m] & -> & _).
    apply targetMetrics_count_loss.
  - intros k m Hk.
    rewrite (list_filter_iff _ (λ x, labelValues x = SplitN 3 k ∧ fqName (desc x) = "ping_loss_percent"))
      by (intros x; tauto).
    rewrite <- list_filter_filter.
    rewrite filter_cons, decide_False by discriminate.
    rewrite loss_filter_concat.
    apply loss_filter_unique; [apply NoDup_fst_map_to_list |].
    by apply elem_of_map_to_list.
Qed.

Lemma batch_counts_witness :
  filter (λ x, fqName (desc x) = "ping_loss_percent" ∧ labelValues x = SplitN 3 "h 1.2.3.4 4")
    (upMetric :: targetMetrics true rttBoth "h 1.2.3.4 4" metrics_h)
  = [mkMetric lossDesc (float_div (PacketsLost metrics_h) (PacketsSent metrics_h))
       (SplitN 3 "h 1.2.3.4 4")].
Proof.
  destruct (batch_counts true rttBoth (mkBatch ∅) snapshot_h
              (upMetric :: targetMetrics true rttBoth "h 1.2.3.4 4" metrics_h))
    as (_ & _ & H).
  - vm_compute. reflexivity.
  - apply H. vm_compute. reflexivity.
Defined.

(** X4. [Describe] announces the descriptor of every sample [Collect]
    sends, for both collectors: the type-labelled RTT descriptor only when
    the deprecated metrics are enabled. *)
Theorem describe_covers_collect (dep : bool) (sc : rttUnit) :
  (∀ p export out x, (batchCollect dep sc p export).2 = Some out → x ∈ out →
     desc x ∈ Describe dep sc) ∧
  (∀ tg export out x, singleCollect dep sc tg export = Some out → x ∈ out →
     desc x ∈ Describe dep sc).
Proof.
  split.
  - intros p export out x Hout Hx.
    destruct (batch_samples dep sc p export out x Hout Hx) as [->|(k & m & _ & _ & Hxk)].
    + apply upMetric_described.
    + by apply (targetMetrics_described dep sc k m).
  - intros tg export out x Hs Hx.
    destruct (single_samples dep sc tg export out x Hs Hx) as [->|(m & _ & Hxk)].
    + apply upMetric_described.
    + by apply (targetMetrics_described dep sc tg m).
Qed.

Lemma describe_covers_collect_witness :
  desc upMetric ∈ Describe true rttBoth ∧
  desc upMetric ∈ Describe true rttBoth.
Proof.
  destruct (describe_covers_collect true rttBoth) as [Hb Hs]. split.
  - apply (Hb (mkBatch ∅) snapshot_h (upMetric :: targetMetrics true rttBoth "h 1.2.3.4 4" metrics_h)).
    + vm_compute. reflexivity.
    + by left.
  - apply (Hs "h 1.2.3.4 4" snapshot_h (upMetric :: targetMetrics true rttBoth "h 1.2.3.4 4" metrics_h)).
    + vm_compute. reflexivity.
    + by left.
Defined.

(** X5. The single-target export exposes only the requested identity:
    every sample it sends is the up gauge or carries the requested
    identity's three parts as its [target], [ip] and [ip_version]. *)
Theorem single_collect_only_target (dep : bool) (sc : rttUnit) (tg : string)
    (export : gmap string Metrics) (out : list Metric) (x : Metric) :
  singleCollect dep sc tg export = Some out → x ∈ out →
  x = upMetric ∨ take 3 (labelValues x) = SplitN 3 tg.
Proof.
  intros Hs Hx.
  destruct (single_samples dep sc tg export out x Hs Hx) as [->|(m & Hm & Hxk)]; [by left | right].
  apply (singleCollect_Some dep sc tg export m out Hm) in Hs as [H3 _].
  exact (targetMetrics_identity dep sc tg m x H3 Hxk).
Qed.

Lemma single_collect_only_target_witness :
  take 3 (labelValues (mkMetric lossDesc (float_div 0 10) ["h"; "1.2.3.4"; "4"]))
    = SplitN 3 "h 1.2.3.4 4" ∨
  mkMetric lossDesc (float_div 0 10) ["h"; "1.2.3.4"; "4"] = upMetric.
Proof.
  destruct (single_collect_only_target true rttBoth "h 1.2.3.4 4" snapshot_h
              (upMetric :: targetMetrics true rttBoth "h 1.2.3.4 4" metrics_h)
              (mkMetric lossDesc (float_div 0 10) ["h"; "1.2.3.4"; "4"])) as [H|H].
  - vm_compute. reflexivity.
  - apply elem_of_cons. right. apply in_targetMetrics. right; right. reflexivity.
  - by right.
  - by left.
Defined.

(** * Further properties of the ephemeral registry *)

Lemma fireTimer_now (i : nat) (s : State) : now (fireTimer i s) = now s.
Proof.
  unfold fireTimer. destruct (timers s !! i); [| done].
  by destruct (_ && _).
Qed.

Lemma fireTimer_other (i j : nat) (s : State) :
  i ≠ j → timers (fireTimer i s) !! j = timers s !! j.
Proof.
  intros Hij. unfold fireTimer. destruct (timers s !! i); [| done].
  destruct (_ && _); [| done]. simpl. by rewrite list_lookup_insert_ne.
Qed.

Lemma fireTimer_fires (i : nat) (s : State) (t : Timer) :
  timers s !! i = Some t → t_live t = true → (t_deadline t ≤ now s)%Z →
  targetsMap (fireTimer i s) = delete (t_host t) (targetsMap s) ∧
  engine (fireTimer i s) = engine s ∖ list_to_set (map (nameForIP (t_host t)) (t_addresses t)).
Proof.
  intros Ht Hl Hd. unfold fireTimer. rewrite Ht, Hl.
  apply Z.leb_le in Hd. rewrite Hd. split; reflexivity.
Qed.

Lemma fireTimer_shrinks (i : nat) (s : State) :
  (∀ h, targetsMap (fireTimer i s) !! h = None ∨ targetsMap (fireTimer i s) !! h = targetsMap s !! h) ∧
  engine (fireTimer i s) ⊆ engine s.
Proof.
  destruct (timers s !! i) as [t|] eqn:Ht.
  - destruct (t_live t && (t_deadline t <=? now s)%Z) eqn:Hc.
    + apply andb_true_iff in Hc as [Hl Hd]. apply Z.leb_le in Hd.
      destruct (fireTimer_fires i s t Ht Hl Hd) as [-> ->]. split; [| set_solver].
      intros h. destruct (decide (t_host t = h)) as [<-|Hne].
      * left. apply lookup_delete_eq.
      * right. by apply lookup_delete_ne.
    + unfold fireTimer. rewrite Ht, Hc. split; [intros h; by right | done].
  - unfold fireTimer. rewrite Ht. split; [intros h; by right | done].
Qed.

Lemma foldl_fire_shrinks (ids : list nat) (s : State) :
  (∀ h, is_Some (targetsMap (foldl (fun s id => fireTimer id s) s ids) !! h) →
        is_Some (targetsMap s !! h)) ∧
  engine (foldl (fun s id => fireTimer id s) s ids) ⊆ engine s.
Proof.
  revert s. induction ids as [|i ids IH]; intros s; simpl; [done |].
  destruct (IH (fireTimer i s)) as [Hm He].
  destruct (fireTimer_shrinks i s) as [Hm1 He1]. split; [| set_solver].
  intros h Hh. apply Hm in Hh. destruct (Hm1 h) as [E|E]; rewrite E in Hh; [| done].
  by destruct Hh.
Qed.

Lemma tick_shrinks (dt : N) (st : State) :
  (∀ h, is_Some (targetsMap (tick dt st) !! h) → is_Some (targetsMap st !! h)) ∧
  engine (tick dt st) ⊆ engine st.
Proof. apply (foldl_fire_shrinks _ (set_now (now st + Z.of_N dt) st)). Qed.

Lemma handle_now (dep : bool) (sc : rttUnit) (T : Z) (st : State) (rq : Request) :
  now (handle dep sc T st rq).1 = now st.
Proof.
  unfold handle. destruct (decide (query_target rq = "")).
  { by destruct (batchCollect _ _ _ _). }
  destruct (lookup rq) as [msg|[|a rest]]; [done | done |].
  destruct (targetsMap st !! query_target rq) as [id|].
  - unfold stopTimer. by destruct (timers st !! id).
  - unfold addIfNew. rewrite decide_False by apply not_elem_of_nil.
    by destruct (addResult rq).
Qed.


(** A live timer that is due fires during the sweep: its hostname's entry
    is removed and the identities of the addresses it captured are
    deregistered; later timers only remove more. *)
Lemma foldl_fire_removes (ids : list nat) (s : State) (h : string) (id : nat) (t : Timer) :
  (id ∈ ids ∧ timers s !! id = Some t ∧ t_live t = true ∧ t_host t = h ∧
   (t_deadline t ≤ now s)%Z) ∨
  (targetsMap s !! h = None ∧ ∀ a, a ∈ t_addresses t → nameForIP h a ∉ engine s) →
  targetsMap (foldl (fun s id => fireTimer id s) s ids) !! h = None ∧
  ∀ a, a ∈ t_addresses t → nameForIP h a ∉ engine (foldl (fun s id => fireTimer id s) s ids).
Proof.
  revert s. induction ids as [|i ids IH]; intros s Hc; simpl.
  { destruct Hc as [(Hin & _)|Hc]; [by apply elem_of_nil in Hin | exact Hc]. }
  apply IH. destruct (fireTimer_shrinks i s) as [Hm1 He1].
  destruct Hc as [(Hin & Ht & Hl & Hh & Hd)|(Hn & He)].
  - destruct (decide (i = id)) as [->|Hne].
    + right. destruct (fireTimer_fires id s t Ht Hl Hd) as [Hm He]. rewrite Hm, He, Hh.
      split; [apply lookup_delete_eq |].
      intros a Ha. rewrite elem_of_difference, elem_of_list_to_set. intros [_ Hn].
      apply Hn, list_elem_of_fmap_2, Ha.
    + left. apply elem_of_cons in Hin as [->|Hin]; [done |].
      split_and!; [done | by rewrite fireTimer_other | done | done | by rewrite fireTimer_now].
  - right. split.
    + destruct (Hm1 h) as [E|E]; rewrite E; done.
    + intros a Ha Ha'. apply (He a Ha). by apply He1.
Qed.

(** X6. What requests and time never do: an on-demand or batch request
    never removes an Ephemeral Entry and never deregisters an identity
    from the engine; the passing of time (timers firing) never creates
    an entry and never registers an identity. *)
Theorem requests_never_remove_time_never_adds (dep : bool) (sc : rttUnit) (T : Z) :
  (∀ st rq h, is_Some (targetsMap st !! h) →
     is_Some (targetsMap (handle dep sc T st rq).1 !! h)) ∧
  (∀ st rq, engine st ⊆ engine (handle dep sc T st rq).1) ∧
  (∀ st dt h, is_Some (targetsMap (tick dt st) !! h) → is_Some (targetsMap st !! h)) ∧
  (∀ st dt, engine (tick dt st) ⊆ engine st).
Proof.
  split_and!.
  - intros st rq h Hh. unfold handle. destruct (decide (query_target rq = "")).
    { by destruct (batchCollect _ _ _ _). }
    destruct (lookup rq) as [msg|[|a rest]]; [done | done |].
    destruct (targetsMap st !! query_target rq) as [id|].
    + unfold storeTimer; simpl. apply lookup_insert_is_Some'. right.
      unfold stopTimer. by destruct (timers st !! id).
    + unfold addIfNew. rewrite decide_False by apply not_elem_of_nil.
      destruct (addResult rq); [done |].
      unfold storeTimer; simpl. apply lookup_insert_is_Some'. by right.
  - intros st rq. unfold handle. destruct (decide (query_target rq = "")).
    { by destruct (batchCollect _ _ _ _). }
    destruct (lookup rq) as [msg|[|a rest]]; [done | done |].
    destruct (targetsMap st !! query_target rq) as [id|].
    + unfold storeTimer, stopTimer. by destruct (timers st !! id).
    + unfold addIfNew. rewrite decide_False by apply not_elem_of_nil.
      destruct (addResult rq); [done |]. simpl. set_solver.
  - intros st dt h. apply tick_shrinks.
  - intros st dt. apply tick_shrinks.
Qed.

Lemma requests_never_remove_time_never_adds_witness :
  is_Some (targetsMap (handle true rttBoth 10
     (run true rttBoth 10 (initState []) [Req (okRequest "h" addr_h)]).1
     (mkRequest "h" (LookupErr "timeout") None ∅)).1 !! "h") ∧
  engine (tick 11000000000 (run true rttBoth 10 (initState []) [Req (okRequest "h" addr_h)]).1)
    ⊆ engine (run true rttBoth 10 (initState []) [Req (okRequest "h" addr_h)]).1.
Proof.
  destruct (requests_never_remove_time_never_adds true rttBoth 10) as (Hm & _ & _ & He).
  split; [| apply He].
  apply Hm. vm_compute. by eexists.
Defined.



(** A timeout whose nanosecond count lies in [[2^63, 2^64)] wraps to a
    negative duration: the timer is due at once. *)
Lemma afterFuncWhen_wrapped (t0 T : Z) :
  (9223372037 ≤ T ≤ 18446744073)%Z → afterFuncWhen t0 (timeoutDuration T) = t0.
Proof.
  intros HT. unfold timeoutDuration, afterFuncWhen, wrap64.
  change (2 ^ 63)%Z with 9223372036854775808%Z.
  change (2 ^ 64)%Z with 18446744073709551616%Z.
  rewrite <- (Z.mod_unique (T * 1000000000 + 9223372036854775808) 18446744073709551616 1
               (T * 1000000000 + 9223372036854775808 - 18446744073709551616)) by lia.
  rewrite (proj2 (Z.leb_le _ _)) by lia. reflexivity.
Qed.



(** X13. A [targets.timeout] from 9223372037 to 18446744073 seconds
    overflows [time.Duration] to a negative duration, so the timer a
    successful on-demand request stores is due at once: the request
    stores the hostname's entry, and the next timer check, with no time
    passing, removes it again. *)
Theorem wrapped_timeout_expires_at_once (dep : bool) (sc : rttUnit) (T : Z) (st : State)
    (rq : Request) (a : IPAddr) (rest : list IPAddr) :
  query_target rq ≠ "" → lookup rq = LookupOk (a :: rest) →
  is_Some (targetsMap st !! query_target rq) ∨ addResult rq = None →
  (9223372037 ≤ T ≤ 18446744073)%Z →
  targetsMap (handle dep sc T st rq).1 !! query_target rq = Some (length (timers st)) ∧
  targetsMap (tick 0 (handle dep sc T st rq).1) !! query_target rq = None.
Proof.
  intros Hne Hl Hc HT.
  destruct (handle_ok dep sc T st rq a rest Hne Hl Hc) as (_ & Hmap & [addrs Ht] & _).
  pose proof (handle_now dep sc T st rq) as Hnow.
  set (st1 := (handle dep sc T st rq).1) in *.
  split; [rewrite Hmap; apply lookup_insert_eq |].
  unfold tick, fireDue.
  refine (proj1 (foldl_fire_removes _ _ _ (length (timers st))
            (mkTimer (query_target rq) (afterFuncWhen (now st) (timeoutDuration T)) addrs true) _)).
  left. split_and!; simpl; try done.
  - apply elem_of_seq. apply lookup_lt_Some in Ht. lia.
  - rewrite Hnow, afterFuncWhen_wrapped by done. lia.
Qed.

Lemma wrapped_timeout_expires_at_once_witness :
  targetsMap (handle true rttBoth 9223372037 (initState []) (okRequest "h" addr_h)).1 !! "h" = Some 0 ∧
  targetsMap (tick 0 (handle true rttBoth 9223372037 (initState []) (okRequest "h" addr_h)).1)
    !! "h" = None.
Proof.
  apply (wrapped_timeout_expires_at_once true rttBoth 9223372037 (initState [])
           (okRequest "h" addr_h) addr_h []).
  - discriminate.
  - reflexivity.
  - right. reflexivity.
  - lia.
Defined.

(** X8. Expiry: when the clock reaches the deadline of the timer stored
    for a hostname, the hostname's entry is removed and every identity
    built from the addresses that timer captured is deregistered from
    the engine. *)
Theorem due_timer_expires (st : State) (h : string) (id : nat) (t : Timer) (dt : N) :
  RegistryInv st → targetsMap st !! h = Some id → timers st !! id = Some t →
  (t_deadline t ≤ now st + Z.of_N dt)%Z →
  targetsMap (tick dt st) !! h = None ∧
  ∀ a, a ∈ t_addresses t → nameForIP h a ∉ engine (tick dt st).
Proof.
  intros Hinv Hh Ht Hd.
  destruct (proj2 Hinv h id Hh) as (t' & Ht' & Hl & Hho).
  rewrite Ht in Ht'. injection Ht' as <-.
  unfold tick, fireDue. apply (foldl_fire_removes _ _ h id t). left.
  split_and!; simpl; try done.
  apply elem_of_seq. apply lookup_lt_Some in Ht. lia.
Qed.

Lemma due_timer_expires_witness :
  targetsMap (tick 11000000000 (run true rttBoth 10 (initState []) [Req (okRequest "h" addr_h)]).1)
    !! "h" = None ∧
  ∀ a, a ∈ [addr_h] →
    nameForIP "h" a ∉ engine (tick 11000000000 (run true rttBoth 10 (initState []) [Req (okRequest "h" addr_h)]).1).
Proof.
  apply (due_timer_expires (run true rttBoth 10 (initState []) [Req (okRequest "h" addr_h)]).1
           "h" 0 (mkTimer "h" 10000000000 [addr_h] true) 11000000000).
  - apply run_inv, RegistryInv_init.
  - vm_compute. reflexivity.
  - vm_compute. reflexivity.
  - vm_compute. congruence.
Defined.

(** * Further properties of startup *)

Lemma length_string_app (s t : string) :
  String.length (s +:+ t) = String.length s + String.length t.
Proof. induction s as [|c s IH]; simpl; [done | by rewrite IH]. Qed.

Lemma substring_app (s t : string) (n : nat) :
  substring (String.length s) n (s +:+ t) = substring 0 n t.
Proof. induction s as [|c s IH]; simpl; [done | exact IH]. Qed.

Lemma HasSuffix_53 (s : string) : HasSuffix (s +:+ ":53") ":53" = true.
Proof.
  unfold HasSuffix. rewrite length_string_app.
  replace (String.length s + String.length ":53" - String.length ":53") with (String.length s) by lia.
  rewrite substring_app. apply andb_true_iff. split; [apply Nat.leb_le; lia | reflexivity].
Qed.

Lemma setupResolver_fields (cfg : Config) :
  Targets (setupResolver cfg).2 = Targets cfg ∧ History (setupResolver cfg).2 = History cfg ∧
  Size (setupResolver cfg).2 = Size cfg.
Proof. unfold setupResolver. by destruct (decide _). Qed.

Lemma normalizeMetricsPath_start (mpath : string) :
  ∃ r, normalizeMetricsPath mpath = String "/"%char r.
Proof.
  destruct mpath as [|c r]; [by eexists |]. simpl.
  destruct (Ascii.eqb c "/"%char) eqn:E; [| by eexists].
  apply Ascii.eqb_eq in E as ->. by eexists.
Qed.

(** X9. The metrics path [main] serves always starts with [/]: an empty
    path becomes [/metrics], a path that does not start with [/] becomes
    [/] followed by the path, a path that starts with [/] is kept, so the
    correction is idempotent. *)
Theorem normalizeMetricsPath_slash (mpath : string) :
  normalizeMetricsPath "" = "/metrics" ∧
  (∀ c r, c ≠ "/"%char → normalizeMetricsPath (String c r) = "/" +:+ String c r) ∧
  (∀ r, normalizeMetricsPath (String "/"%char r) = String "/"%char r) ∧
  (∃ r, normalizeMetricsPath mpath = String "/"%char r) ∧
  normalizeMetricsPath (normalizeMetricsPath mpath) = normalizeMetricsPath mpath.
Proof.
  assert (Hkeep : ∀ r, normalizeMetricsPath (String "/"%char r) = String "/"%char r)
    by reflexivity.
  pose proof (normalizeMetricsPath_start mpath) as Hstart.
  split_and!; [reflexivity | | exact Hkeep | exact Hstart |].
  - intros c r Hc. simpl. destruct (Ascii.eqb c "/"%char) eqn:E; [| reflexivity].
    apply Ascii.eqb_eq in E. contradiction.
  - destruct Hstart as [r ->]. apply Hkeep.
Qed.

Lemma substring_full (s : string) : substring 0 (String.length s) s = s.
Proof. induction s as [|c s IH]; simpl; [done | by rewrite IH]. Qed.

Lemma substring_split (s : string) (n : nat) :
  n ≤ String.length s → s = substring 0 n s +:+ substring n (String.length s - n) s.
Proof.
  revert n. induction s as [|c s IH]; intros n Hn; simpl in *.
  - destruct n; [done | lia].
  - destruct n as [|n].
    + simpl. by rewrite substring_full.
    + simpl. transitivity (String c (substring 0 n s +:+ substring n (String.length s - n) s)).
      * f_equal. apply IH. lia.
      * reflexivity.
Qed.

(** [strings.HasSuffix(s, suffix)] holds exactly when [s] ends in [suffix]. *)
Lemma HasSuffix_spec (s suf : string) : HasSuffix s suf = true ↔ ∃ p, s = p +:+ suf.
Proof.
  unfold HasSuffix. rewrite andb_true_iff, Nat.leb_le, String.eqb_eq. split.
  - intros [Hl Hs]. exists (substring 0 (String.length s - String.length suf) s).
    rewrite (substring_split s (String.length s - String.length suf)) at 1 by lia.
    f_equal. replace (String.length s - (String.length s - String.length suf))
      with (String.length suf) by lia. exact Hs.
  - intros [p ->]. rewrite length_string_app. split; [lia |].
    replace (String.length p + String.length suf - String.length suf) with (String.length p) by lia.
    rewrite substring_app. apply substring_full.
Qed.

(** X10. [setupResolver] keeps the default resolver when no nameserver is
    configured. Otherwise the resolver dials the nameserver over UDP at
    an address ending in [:53]: the configured address when it already
    ends in [:53], and the configured address with [:53] appended when it
    does not. Running it again on the config it leaves behind gives the
    same resolver and config. *)
Theorem setupResolver_port_53 (cfg : Config) :
  (Nameserver cfg = "" → setupResolver cfg = (DefaultResolver, cfg)) ∧
  (Nameserver cfg ≠ "" →
     (setupResolver cfg).1 = DialResolver "udp" (Nameserver (setupResolver cfg).2) ∧
     ((∃ p, Nameserver cfg = p +:+ ":53") →
        Nameserver (setupResolver cfg).2 = Nameserver cfg) ∧
     ((¬ ∃ p, Nameserver cfg = p +:+ ":53") →
        Nameserver (setupResolver cfg).2 = Nameserver cfg +:+ ":53") ∧
     (∃ p, Nameserver (setupResolver cfg).2 = p +:+ ":53")) ∧
  setupResolver (setupResolver cfg).2 = setupResolver cfg.
Proof.
  destruct cfg as [tg hi iv to sz rf ns]. simpl.
  destruct (decide (ns = "")) as [->|Hne].
  - assert (E : setupResolver (mkConfig tg hi iv to sz rf "") = (DefaultResolver, mkConfig tg hi iv to sz rf ""))
      by reflexivity.
    rewrite E. split_and!; done.
  - destruct (HasSuffix ns ":53") eqn:Hs.
    + assert (E : setupResolver (mkConfig tg hi iv to sz rf ns)
                  = (DialResolver "udp" ns, mkConfig tg hi iv to sz rf ns)).
      { unfold setupResolver. simpl. rewrite decide_False by done. by rewrite Hs. }
      rewrite E. simpl. split_and!; [done | intros _ | exact E].
      split_and!; [done | done | | by apply HasSuffix_spec].
      intros Hn. exfalso. apply Hn, HasSuffix_spec, Hs.
    + assert (Hne' : ns +:+ ":53" ≠ "") by (destruct ns; discriminate).
      assert (E : setupResolver (mkConfig tg hi iv to sz rf ns)
                  = (DialResolver "udp" (ns +:+ ":53"), mkConfig tg hi iv to sz rf (ns +:+ ":53"))).
      { unfold setupResolver. simpl. rewrite decide_False by done. by rewrite Hs. }
      assert (E' : setupResolver (mkConfig tg hi iv to sz rf (ns +:+ ":53"))
                  = (DialResolver "udp" (ns +:+ ":53"), mkConfig tg hi iv to sz rf (ns +:+ ":53"))).
      { unfold setupResolver. simpl. rewrite decide_False by done. by rewrite HasSuffix_53. }
      rewrite E. simpl. split_and!; [done | intros _ | exact E'].
      split_and!; [done | | done | by exists ns].
      intros Hp. apply HasSuffix_spec in Hp. congruence.
Qed.

Lemma setupResolver_port_53_witness :
  Nameserver (setupResolver (mkConfig [] 10 0 0 56 0 "10.0.0.1")).2 = "10.0.0.1:53" ∧
  Nameserver (setupResolver (mkConfig [] 10 0 0 56 0 "10.0.0.1:53")).2 = "10.0.0.1:53".
Proof.
  destruct (setupResolver_port_53 (mkConfig [] 10 0 0 56 0 "10.0.0.1")) as (_ & H & _).
  destruct (setupResolver_port_53 (mkConfig [] 10 0 0 56 0 "10.0.0.1:53")) as (_ & H' & _).
  destruct H as (_ & _ & Hno & _); [discriminate |].
  destruct H' as (_ & Hyes & _); [discriminate |].
  split.
  - apply Hno. intros Hp. apply HasSuffix_spec in Hp. vm_compute in Hp. discriminate.
  - apply Hyes. exists "10.0.0.1". reflexivity.
Defined.

(** X11. Flags are defaults, not overrides: without a config file the
    configuration is the flag values; a loaded configuration is left
    unchanged by applying the flags again (no field it leaves at zero
    has a non-zero flag); a config file that cannot be opened or parsed
    is an error. *)
Theorem loadConfig_flag_defaults (fl : Flags) (file : ConfigFile) :
  (configFile fl = "" →
     loadConfig fl file = inr (mkConfig (targets fl) (historySize fl) (pingInterval fl)
                                 (pingTimeout fl) (pingSize fl) (dnsRefresh fl) (dnsNameServer fl))) ∧
  (∀ c, loadConfig fl file = inr c → addFlagToConfig fl c = c) ∧
  (configFile fl ≠ "" → (∀ e, file ≠ Parsed e) → ∃ msg, loadConfig fl file = inl msg).
Proof.
  assert (Hfix : ∀ c0, addFlagToConfig fl (addFlagToConfig fl c0) = addFlagToConfig fl c0).
  { intros [tg hi iv to sz rf ns]. unfold addFlagToConfig; simpl.
    f_equal; repeat case_decide; congruence. }
  split_and!.
  - intros Hc. unfold loadConfig. rewrite decide_True by done. reflexivity.
  - intros c. unfold loadConfig. case_decide.
    + intros [= <-]. apply Hfix.
    + destruct file as [e|e|c0]; [done | done |]. intros [= <-]. apply Hfix.
  - intros Hc Hp. unfold loadConfig. rewrite decide_False by done.
    destruct file as [e|e|c0]; [by eexists | by eexists | by destruct (Hp c0)].
Qed.

Lemma loadConfig_flag_defaults_witness :
  loadConfig defaultFlags (OpenError "no such file") =
    inr (mkConfig [] 10 5000000000 4000000000 56 60000000000 "").
Proof.
  destruct (loadConfig_flag_defaults defaultFlags (OpenError "no such file")) as (H1 & _ & _).
  apply H1. reflexivity.
Defined.

Lemma main_Serve_inv (fl : Flags) (levelOk : bool) (file : ConfigFile) (pingerOk : bool)
    (s : Settings) :
  main fl levelOk file pingerOk = Serve s →
  showVersion fl = false ∧ levelOk = true ∧
  ((deprecatedMetrics fl = "enable" ∧ s_enableDeprecatedMetrics s = true) ∨
   (deprecatedMetrics fl = "disable" ∧ s_enableDeprecatedMetrics s = false)) ∧
  rttUnitFromString (rttMode fl) = Some (s_rttMetricsScale s) ∧
  s_metricsPath s = normalizeMetricsPath (metricsPath fl) ∧
  (∃ c, loadConfig fl file = inr c ∧ (1 ≤ History c)%Z ∧ (Size c ≤ 65500)%N ∧
        setupResolver c = (s_resolver s, s_cfg s)) ∧
  pingerOk = true.
Proof.
  unfold main. intros H. repeat (case_match; simplify_eq/=).
  all: repeat match goal with
       | Hb : negb ?b = false |- _ => apply negb_false_iff in Hb; subst b
       end.
  all: split_and!; try done; [first [by left | by right] |].
  all: eexists; split_and!; [reflexivity | lia | lia | eassumption].
Qed.

Lemma main_Serve_intro (fl : Flags) (levelOk : bool) (file : ConfigFile) (pingerOk : bool) :
  showVersion fl = false → levelOk = true →
  deprecatedMetrics fl = "enable" ∨ deprecatedMetrics fl = "disable" →
  is_Some (rttUnitFromString (rttMode fl)) →
  (∃ c, loadConfig fl file = inr c ∧ (1 ≤ History c)%Z ∧ (Size c ≤ 65500)%N) →
  pingerOk = true →
  ∃ s, main fl levelOk file pingerOk = Serve s.
Proof.
  intros Hv -> Hd [sc Hsc] (c & Hl & Hh & Hz) ->.
  unfold main. rewrite Hv, Hsc, Hl. cbn [negb].
  destruct (setupResolver c) as [res c'].
  destruct Hd as [He|He]; rewrite He.
  all: repeat case_decide; try lia; try congruence; by eexists.
Qed.

(** X12. [main] reaches the server exactly when the version flag is off,
    the log level is accepted, the deprecated-metrics flag is [enable] or
    [disable], the RTT unit is valid, the configuration loads with a
    history size of at least 1 and a payload size of at most 65500, and
    the pinger starts. It then serves on a path starting with [/], with
    the deprecated metrics on exactly for [enable], the parsed RTT unit,
    and that history and payload size. *)
Theorem main_serves_iff (fl : Flags) (levelOk : bool) (file : ConfigFile) (pingerOk : bool) :
  ((∃ s, main fl levelOk file pingerOk = Serve s) ↔
   showVersion fl = false ∧ levelOk = true ∧
   (deprecatedMetrics fl = "enable" ∨ deprecatedMetrics fl = "disable") ∧
   is_Some (rttUnitFromString (rttMode fl)) ∧
   (∃ c, loadConfig fl file = inr c ∧ (1 ≤ History c)%Z ∧ (Size c ≤ 65500)%N) ∧
   pingerOk = true) ∧
  (∀ s, main fl levelOk file pingerOk = Serve s →
     s_enableDeprecatedMetrics s = bool_decide (deprecatedMetrics fl = "enable") ∧
     rttUnitFromString (rttMode fl) = Some (s_rttMetricsScale s) ∧
     (∃ r, s_metricsPath s = String "/"%char r) ∧
     (1 ≤ History (s_cfg s))%Z ∧ (Size (s_cfg s) ≤ 65500)%N).
Proof.
  split; [split |].
  - intros [s Hs].
    destruct (main_Serve_inv fl levelOk file pingerOk s Hs)
      as (Hv & Hl & Hd & Hsc & _ & (c & Hc & Hh & Hz & _) & Hp).
    split_and!; try done;
      try (destruct Hd as [[? _]|[? _]]; [by left | by right]);
      try by eexists; try by exists c.
  - intros (Hv & Hl & Hd & Hsc & Hc & Hp). by apply main_Serve_intro.
  - intros s Hs.
    destruct (main_Serve_inv fl levelOk file pingerOk s Hs)
      as (_ & _ & Hd & Hsc & Hm & (c & _ & Hh & Hz & Hr) & _).
    destruct (setupResolver_fields c) as (_ & Hhc & Hzc). rewrite Hr in Hhc, Hzc. simpl in Hhc, Hzc.
    split_and!.
    + destruct Hd as [[He ->]|[He ->]].
      * by rewrite bool_decide_true.
      * rewrite bool_decide_false; [done |]. rewrite He. discriminate.
    + exact Hsc.
    + rewrite Hm. apply normalizeMetricsPath_start.
    + lia.
    + lia.
Qed.

Lemma main_serves_iff_witness :
  ∃ s, main defaultFlags true (Parsed emptyConfig) true = Serve s.
Proof.
  apply (proj1 (main_serves_iff defaultFlags true (Parsed emptyConfig) true)).
  split_and!; try reflexivity.
  - by left.
  - eexists. reflexivity.
  - exists (mkConfig [] 10 5000000000 4000000000 56 60000000000 "").
    split_and!; [reflexivity | simpl; lia | simpl; lia].
Defined.
